(** * pi-pr-status: a shallow embedding of the status-computation core

    The development follows [src/unnamed/part_002] (the extension with its
    inlined GitHub helpers) and [src/lib/github.ts] (the same helpers as a
    library).  The two copies of [parseChecks], [getPrForBranch] and
    [formatStatus] are textually the same function, so each is embedded once.

    Conventions of the embedding:
    - a JavaScript string is a [string] of bytes (its UTF-8 encoding);
      [trim] removes the white space of the language, ASCII or not;
      [toUpperCase] acts on the ASCII letters and leaves every other byte
      alone, so statements that depend on the upper-casing of a text are
      about ASCII text;
    - a JavaScript number is an integer [Z]; fractional numbers, NaN, the
      loss of precision from 2^53 on and the exponent notation from 10^21 on
      are outside the model, so statements that depend on how a number
      prints or reads are about numbers below 2^53;
    - whatever [JSON.parse] returns is a [value]; the TypeScript annotations
      are not enforced at run time, so the fields of [PrInfo] and [RepoInfo]
      that are copied out of parsed JSON hold [value]s; the conversion of a
      value to a string is total here, where the language throws on some
      objects, so statements that a handler returns are about backends that
      answer with typed data ([typed_world]);
    - an exception is the [Throw] result of a computation in [Result];
    - the processes run by [execSync] and the built-in [JSON.parse] are taken
      as parameters of the functions that use them. *)

From Stdlib Require Import ZArith Ascii String List Bool Lia DecimalString DecimalZ.
From stdpp Require Import base option list strings gmap.
Import ListNotations.

Set Warnings "-register-all".
Local Open Scope Z_scope.

(** ** Results and exceptions *)

Inductive exn : Type :=
  | TypeError
  | SyntaxError
  | ExecError.

Inductive Result (A : Type) : Type :=
  | Ok (a : A)
  | Throw (e : exn).

Arguments Ok {A} a.
Arguments Throw {A} e.

Global Instance Result_ret : MRet Result := fun A a => Ok a.

Global Instance Result_bind : MBind Result := fun A B f m =>
  match m with
  | Ok a => f a
  | Throw e => Throw e
  end.

(** [try { body } catch { handler }] *)
Definition try_catch {A : Type} (body : Result A) (handler : Result A) : Result A :=
  match body with
  | Ok a => Ok a
  | Throw _ => handler
  end.

(** ** JavaScript values *)

Inductive value : Type :=
  | VUndefined
  | VNull
  | VBool (b : bool)
  | VNum (z : Z)
  | VStr (s : string)
  | VArr (items : list value)
  | VObj (fields : list (string * value)).

(** Own-property lookup in the field list of a parsed object. *)
Fixpoint lookup_field (k : string) (fields : list (string * value)) : value :=
  match fields with
  | [] => VUndefined
  | (k', v) :: rest => if String.eqb k k' then v else lookup_field k rest
  end.

(** [v.k]: a TypeError on [null] and [undefined]; none of the property names
    the program reads is inherited from the prototype of an object, string,
    number, boolean or array, so only the fields of a parsed object are
    found. *)
Definition get_prop (v : value) (k : string) : Result value :=
  match v with
  | VUndefined | VNull => Throw TypeError
  | VObj fields => Ok (lookup_field k fields)
  | _ => Ok VUndefined
  end.

(** [v?.k] *)
Definition get_prop_opt (v : value) (k : string) : Result value :=
  match v with
  | VUndefined | VNull => Ok VUndefined
  | _ => get_prop v k
  end.

Definition truthy (v : value) : bool :=
  match v with
  | VUndefined | VNull => false
  | VBool b => b
  | VNum z => negb (z =? 0)
  | VStr s => negb (String.eqb s "")
  | VArr _ | VObj _ => true
  end.

(** [a || b] *)
Definition js_or (a b : value) : value := if truthy a then a else b.

(** [a === b] against a string literal, the only use the program makes of it
    on a [value]. *)
Definition strict_eq_str (v : value) (lit : string) : bool :=
  match v with
  | VStr s => String.eqb s lit
  | _ => false
  end.

Definition isArray (v : value) : bool :=
  match v with
  | VArr _ => true
  | _ => false
  end.

(** ** Strings *)

(** The decimal text of an integer: what a template literal prints for a
    number that is an integer of absolute value below 10^21.  From 10^21 on
    JavaScript prints exponent notation, which is outside this model. *)
Definition Z_to_string (z : Z) : string := NilZero.string_of_int (Z.to_int z).

Fixpoint join (sep : string) (l : list string) : string :=
  match l with
  | [] => ""
  | [x] => x
  | x :: rest => x +:+ sep +:+ join sep rest
  end.

(** The conversion of a template literal [`${v}`].  On a primitive value
    the conversion cannot throw and is the one below.  A parsed object
    renders as [[object Object]], unless it has an own key [toString] (not
    callable, as everything [JSON.parse] returns): on that one JavaScript
    throws a TypeError, which this total function leaves out. *)
Fixpoint ToString (v : value) : string :=
  match v with
  | VUndefined => "undefined"
  | VNull => "null"
  | VBool true => "true"
  | VBool false => "false"
  | VNum z => Z_to_string z
  | VStr s => s
  | VArr items =>
      join "," (map (fun x => match x with
                              | VUndefined | VNull => ""
                              | _ => ToString x
                              end) items)
  | VObj _ => "[object Object]"
  end.

(** The values whose conversion to a string cannot throw: everything but
    objects and arrays. *)
Definition primitive (v : value) : bool :=
  match v with
  | VArr _ | VObj _ => false
  | _ => true
  end.

(** [parts.join(sep)]: [null] and [undefined] elements render as nothing. *)
Definition Array_join (parts : list value) (sep : string) : string :=
  join sep (map (fun x => match x with
                          | VUndefined | VNull => ""
                          | _ => ToString x
                          end) parts).

Definition upper_char (c : ascii) : ascii :=
  let n := nat_of_ascii c in
  if ((97 <=? n) && (n <=? 122))%nat then ascii_of_nat (n - 32) else c.

(** [s.toUpperCase()] on the ASCII letters; other bytes are kept.  On ASCII
    text this is the upper-casing of the language; outside ASCII the language
    also maps letters such as U+00DF, U+0131 and U+017F (to SS, I and S),
    which this function keeps as they are. *)
Fixpoint toUpperCase (s : string) : string :=
  match s with
  | EmptyString => EmptyString
  | String c rest => String (upper_char c) (toUpperCase rest)
  end.

(** The text is ASCII: every byte is below 128. *)
Fixpoint ascii_only (s : string) : bool :=
  match s with
  | EmptyString => true
  | String c rest => (nat_of_ascii c <? 128)%nat && ascii_only rest
  end.

(** The method call [v.toUpperCase()] on an arbitrary value: only strings
    have the method. *)
Definition call_toUpperCase (v : value) : Result string :=
  match v with
  | VStr s => Ok (toUpperCase s)
  | _ => Throw TypeError
  end.

(** ** The data model of [src/lib/github.ts] *)

Record CheckStatus : Type := mkCheckStatus {
  total : Z;
  pass : Z;
  fail : Z;
  pending : Z
}.

Record PrInfo : Type := mkPrInfo {
  number : value;
  title : value;
  url : value;
  state : value;
  checks : CheckStatus;
  unresolvedThreads : Z
}.

Record RepoInfo : Type := mkRepoInfo {
  owner : value;
  name : value
}.

(** ** parseChecks *)

Definition is_pass_conclusion (conclusion : string) : bool :=
  String.eqb conclusion "SUCCESS" || String.eqb conclusion "NEUTRAL"
  || String.eqb conclusion "SKIPPED".

Definition is_fail_conclusion (conclusion : string) : bool :=
  String.eqb conclusion "FAILURE" || String.eqb conclusion "TIMED_OUT"
  || String.eqb conclusion "CANCELLED" || String.eqb conclusion "ACTION_REQUIRED".

Definition is_pending_status (status : string) : bool :=
  String.eqb status "IN_PROGRESS" || String.eqb status "QUEUED"
  || String.eqb status "PENDING" || String.eqb status "WAITING".

Definition incr_total (c : CheckStatus) : CheckStatus :=
  mkCheckStatus (total c + 1) (pass c) (fail c) (pending c).
Definition incr_pass (c : CheckStatus) : CheckStatus :=
  mkCheckStatus (total c) (pass c + 1) (fail c) (pending c).
Definition incr_fail (c : CheckStatus) : CheckStatus :=
  mkCheckStatus (total c) (pass c) (fail c + 1) (pending c).
Definition incr_pending (c : CheckStatus) : CheckStatus :=
  mkCheckStatus (total c) (pass c) (fail c) (pending c + 1).

(** The body of the [for] loop, after the ghost test: [checks.total++]
    followed by the [if]/[else if] chain. *)
Definition count_check (conclusion status : string) (checks : CheckStatus) : CheckStatus :=
  let checks := incr_total checks in
  if is_pass_conclusion conclusion then incr_pass checks
  else if is_fail_conclusion conclusion then incr_fail checks
  else if is_pending_status status then incr_pending checks
  else if String.eqb status "COMPLETED" then incr_pass checks
  else incr_pending checks.

(** The [for (const check of statusCheckRollup)] loop over the mutable
    [checks] object. *)
Fixpoint parseChecks_loop (statusCheckRollup : list value) (checks : CheckStatus)
  : Result CheckStatus :=
  match statusCheckRollup with
  | [] => Ok checks
  | c :: rest =>
      c_conclusion ← get_prop c "conclusion";
      conclusion ← call_toUpperCase (js_or c_conclusion (VStr ""));
      c_status ← get_prop c "status";
      status ← call_toUpperCase (js_or c_status (VStr ""));
      c_name ← get_prop c "name";
      let name := js_or c_name (VStr "") in
      if negb (truthy name) && String.eqb conclusion "" && String.eqb status ""
      then parseChecks_loop rest checks
      else parseChecks_loop rest (count_check conclusion status checks)
  end.

Definition parseChecks (statusCheckRollup : list value) : Result CheckStatus :=
  parseChecks_loop statusCheckRollup (mkCheckStatus 0 0 0 0).

(** ** countUnresolvedThreads *)

(** [threads.filter((t) => !t.isResolved).length]; the callback reads a
    property of each element, which throws on [null]. *)
Fixpoint countUnresolvedThreads (threads : list value) : Result Z :=
  match threads with
  | [] => Ok 0
  | t :: rest =>
      r ← get_prop t "isResolved";
      n ← countUnresolvedThreads rest;
      Ok (if negb (truthy r) then n + 1 else n)
  end.

(** ** formatStatus *)

(** [pr.state === "MERGED" ? "🟣" : pr.state === "CLOSED" ? "🔴" : "🟢"] *)
Definition stateIcon (pr : PrInfo) : string :=
  if strict_eq_str (state pr) "MERGED" then "🟣"
  else if strict_eq_str (state pr) "CLOSED" then "🔴"
  else "🟢".

Definition formatStatus (pr : PrInfo) : string :=
  let stateIcon := stateIcon pr in
  let parts := [VStr (stateIcon +:+ " PR #" +:+ ToString (number pr))] in
  let parts :=
    if 0 <? total (checks pr) then
      if 0 <? fail (checks pr) then
        parts ++ [VStr ("❌ " +:+ Z_to_string (fail (checks pr)) +:+ "/"
                        +:+ Z_to_string (total (checks pr)) +:+ " checks failed")]
      else if 0 <? pending (checks pr) then
        parts ++ [VStr ("⏳ " +:+ Z_to_string (pending (checks pr)) +:+ "/"
                        +:+ Z_to_string (total (checks pr)) +:+ " checks pending")]
      else
        parts ++ [VStr ("✅ " +:+ Z_to_string (total (checks pr)) +:+ " checks passed")]
    else parts in
  let parts :=
    if 0 <? unresolvedThreads pr then
      parts ++ [VStr ("💬 " +:+ Z_to_string (unresolvedThreads pr) +:+ " unresolved")]
    else parts in
  let parts := parts ++ [url pr] in
  Array_join parts " · ".

Definition basePr : PrInfo :=
  mkPrInfo (VNum 42) (VStr "Test PR") (VStr "https://github.com/owner/repo/pull/42")
           (VStr "OPEN") (mkCheckStatus 0 0 0 0) 0.

(** ** Regular expressions

    A small backtracking matcher for the fragment of the regular-expression
    language that [PR_URL_RE] uses: literal text, a greedy [c+] over a
    character class, sequencing and capturing groups.  A character class is
    a predicate on bytes; ["/"] and the digits are single bytes that never
    occur inside a multi-byte character, so matching on bytes agrees with
    matching on the characters of the text. *)

Inductive regex : Type :=
  | RLit (lit : string)
  | RPlus (cls : ascii -> bool)
  | RSeq (r1 r2 : regex)
  | RGroup (i : nat) (r : regex).

Fixpoint strip_prefix (p s : string) : option string :=
  match p, s with
  | EmptyString, _ => Some s
  | String a p', String b s' => if Ascii.eqb a b then strip_prefix p' s' else None
  | String _ _, EmptyString => None
  end.

Fixpoint run_length (cls : ascii -> bool) (s : string) : nat :=
  match s with
  | String c rest => if cls c then S (run_length cls rest) else O
  | EmptyString => O
  end.

Fixpoint str_drop (n : nat) (s : string) : string :=
  match n, s with
  | O, _ => s
  | S n', String _ rest => str_drop n' rest
  | S _, EmptyString => EmptyString
  end.

Fixpoint str_take (n : nat) (s : string) : string :=
  match n, s with
  | O, _ => EmptyString
  | S n', String c rest => String c (str_take n' rest)
  | S _, EmptyString => EmptyString
  end.

(** The text consumed between the input [s] and the remaining input [s']. *)
Definition consumed (s s' : string) : string :=
  str_take (String.length s - String.length s') s.

Definition captures : Type := list (nat * string).

Fixpoint capture (i : nat) (caps : captures) : string :=
  match caps with
  | [] => ""
  | (j, s) :: rest => if Nat.eqb i j then s else capture i rest
  end.

Section Matcher.
Context {A : Type}.

(** Greedy repetition: the longest run first, then shorter ones. *)
Fixpoint try_down (n : nat) (s : string) (k : string -> option A) : option A :=
  match n with
  | O => None
  | S m =>
      match k (str_drop n s) with
      | Some x => Some x
      | None => try_down m s k
      end
  end.

Fixpoint rmatch (r : regex) (s : string) (caps : captures)
         (k : string -> captures -> option A) : option A :=
  match r with
  | RLit lit =>
      match strip_prefix lit s with
      | Some s' => k s' caps
      | None => None
      end
  | RPlus cls => try_down (run_length cls s) s (fun s' => k s' caps)
  | RSeq r1 r2 => rmatch r1 s caps (fun s' caps' => rmatch r2 s' caps' k)
  | RGroup i r1 => rmatch r1 s caps (fun s' caps' => k s' ((i, consumed s s') :: caps'))
  end.

End Matcher.

(** A match anchored at the start of [s]: the matched text and the groups. *)
Definition match_here (r : regex) (s : string) : option (string * captures) :=
  rmatch r s [] (fun s' caps => Some (consumed s s', caps)).

(** [text.match(re)] for a regular expression without the [g] flag: the
    match at the leftmost position that has one. *)
Fixpoint String_match (text : string) (r : regex) : option (string * captures) :=
  match match_here r text with
  | Some m => Some m
  | None =>
      match text with
      | EmptyString => None
      | String _ rest => String_match rest r
      end
  end.

Definition not_slash (c : ascii) : bool := negb (Ascii.eqb c "/").

Definition is_digit (c : ascii) : bool :=
  let n := nat_of_ascii c in ((48 <=? n) && (n <=? 57))%nat.

(** [/https:\/\/github\.com\/([^/]+\/[^/]+)\/pull\/(\d+)/] *)
Definition PR_URL_RE : regex :=
  RSeq (RLit "https://github.com/")
 (RSeq (RGroup 1 (RSeq (RPlus not_slash) (RSeq (RLit "/") (RPlus not_slash))))
 (RSeq (RLit "/pull/")
       (RGroup 2 (RPlus is_digit)))).

(** [parseInt(s, 10)] on the text of a [\d+] group: the value of the leading
    run of decimal digits.  The value is exact; a JavaScript number is exact
    below 2^53 and rounded from there on. *)
Fixpoint parseInt_loop (s : string) (acc : Z) : Z :=
  match s with
  | String c rest =>
      if is_digit c then parseInt_loop rest (10 * acc + (Z.of_nat (nat_of_ascii c) - 48))
      else acc
  | EmptyString => acc
  end.

Definition parseInt (s : string) : Z := parseInt_loop s 0.

Module Parsed.
Record t : Type := mk { url : string; repo : string; number : Z }.
End Parsed.

Definition parsePrUrl (text : string) : option Parsed.t :=
  match String_match text PR_URL_RE with
  | None => None
  | Some (m0, caps) => Some (Parsed.mk m0 (capture 1 caps) (parseInt (capture 2 caps)))
  end.

(** ** The backend

    [execSync(command, {cwd, ...})] runs a process and returns its output or
    throws (non-zero exit, timeout).  What it answers is a fact of the world
    at the time of the call; within one event handler the same command in the
    same directory is taken to give the same answer. *)

Record World : Type := mkWorld {
  execSync : string -> option string -> Result string
}.

Definition is_space (c : ascii) : bool :=
  let n := nat_of_ascii c in ((9 <=? n) && (n <=? 13) || (n =? 32))%nat.

(** U+00A0, two bytes in UTF-8. *)
Definition is_space2 (c1 c2 : ascii) : bool :=
  ((nat_of_ascii c1 =? 194) && (nat_of_ascii c2 =? 160))%nat.

(** U+1680, U+2000 to U+200A, U+2028, U+2029, U+202F, U+205F, U+3000 and
    U+FEFF, three bytes each in UTF-8. *)
Definition is_space3 (c1 c2 c3 : ascii) : bool :=
  let a := nat_of_ascii c1 in
  let b := nat_of_ascii c2 in
  let c := nat_of_ascii c3 in
  ((a =? 225) && (b =? 154) && (c =? 128)
   || (a =? 226) && (b =? 128)
      && ((128 <=? c) && (c <=? 138) || (c =? 168) || (c =? 169) || (c =? 175))
   || (a =? 226) && (b =? 129) && (c =? 159)
   || (a =? 227) && (b =? 128) && (c =? 128)
   || (a =? 239) && (b =? 187) && (c =? 191))%nat.

Fixpoint trim_start (s : string) : string :=
  match s with
  | String c1 r1 =>
      if is_space c1 then trim_start r1
      else
        match r1 with
        | String c2 r2 =>
            if is_space2 c1 c2 then trim_start r2
            else
              match r2 with
              | String c3 r3 => if is_space3 c1 c2 c3 then trim_start r3 else s
              | EmptyString => s
              end
        | EmptyString => s
        end
  | EmptyString => EmptyString
  end.

(** The text is white space only. *)
Fixpoint all_white (s : string) : bool :=
  match s with
  | String c1 r1 =>
      if is_space c1 then all_white r1
      else
        match r1 with
        | String c2 r2 =>
            if is_space2 c1 c2 then all_white r2
            else
              match r2 with
              | String c3 r3 => is_space3 c1 c2 c3 && all_white r3
              | EmptyString => false
              end
        | EmptyString => false
        end
  | EmptyString => true
  end.

Fixpoint trim_end (s : string) : string :=
  if all_white s then EmptyString
  else
    match s with
    | String c rest => String c (trim_end rest)
    | EmptyString => EmptyString
    end.

(** [s.trim()]: the white space and line terminators of the language (tab,
    line feed, vertical tab, form feed, carriage return, space, and the code
    points listed above) are removed at both ends.  The text is in UTF-8; a
    byte inside a code point starts no white space, so the scan of [trim_end]
    byte by byte cuts at code points only. *)
Definition trim (s : string) : string := trim_end (trim_start s).

(** [s.split(sep)] for a one-character separator. *)
Fixpoint split (sep : ascii) (s : string) : list string :=
  match s with
  | EmptyString => [EmptyString]
  | String c rest =>
      if Ascii.eqb c sep then EmptyString :: split sep rest
      else match split sep rest with
           | [] => [String c EmptyString]
           | x :: xs => String c x :: xs
           end
  end.

Definition dquote : string := String (ascii_of_nat 34) EmptyString.

Definition zero_checks : CheckStatus := mkCheckStatus 0 0 0 0.

Definition PR_VIEW_FIELDS : string := "--json number,title,url,state,statusCheckRollup".

(** The [gh api graphql] command line of the review-thread query. *)
Definition graphql_command (owner name number : string) : string :=
  "gh api graphql -f query='{ repository(owner: " +:+ dquote +:+ owner +:+ dquote
  +:+ ", name: " +:+ dquote +:+ name +:+ dquote
  +:+ ") { pullRequest(number: " +:+ number
  +:+ ") { reviewThreads(first: 100) { nodes { isResolved } } } } }'".

Section Backend.

(** The built-in [JSON.parse]: a value, or a SyntaxError. *)
Variable JSON_parse : string -> Result value.

Variable w : World.

Definition getBranch (cwd : string) : Result (option string) :=
  try_catch
    (out ← execSync w "git rev-parse --abbrev-ref HEAD" (Some cwd);
     Ok (Some (trim out)))
    (Ok None).

Definition getRepoInfo (cwd : string) : Result (option RepoInfo) :=
  try_catch
    (out ← execSync w "gh repo view --json owner,name" (Some cwd);
     let json := trim out in
     repo ← JSON_parse json;
     repo_owner ← get_prop repo "owner";
     login ← get_prop_opt repo_owner "login";
     repo_name ← get_prop repo "name";
     if truthy login && truthy repo_name then
       repo_owner ← get_prop repo "owner";
       login ← get_prop repo_owner "login";
       repo_name ← get_prop repo "name";
       Ok (Some (mkRepoInfo login repo_name))
     else Ok None)
    (Ok None).

(** [data?.data?.repository?.pullRequest?.reviewThreads?.nodes] *)
Definition reviewThreads_nodes (data : value) : Result value :=
  d ← get_prop_opt data "data";
  r ← get_prop_opt d "repository";
  p ← get_prop_opt r "pullRequest";
  t ← get_prop_opt p "reviewThreads";
  get_prop_opt t "nodes".

(** The inner [try] block of both queries: the value of [unresolvedThreads]
    when the block completes; the [catch] leaves the variable at 0. *)
Definition queryUnresolvedThreads (command : string) (cwd : option string) : Result Z :=
  try_catch
    (out ← execSync w command cwd;
     let gql := trim out in
     data ← JSON_parse gql;
     threads ← reviewThreads_nodes data;
     match threads with
     | VArr items => countUnresolvedThreads items
     | _ => Ok 0
     end)
    (Ok 0).

(** [Array.isArray(pr.statusCheckRollup) ? parseChecks(...) : {total: 0, ...}] *)
Definition rollupChecks (pr : value) : Result CheckStatus :=
  rollup ← get_prop pr "statusCheckRollup";
  match rollup with
  | VArr items => parseChecks items
  | _ => Ok zero_checks
  end.

(** The object literal both queries return. *)
Definition makePrInfo (pr : value) (checks : CheckStatus) (unresolvedThreads : Z)
  : Result (option PrInfo) :=
  pr_number ← get_prop pr "number";
  pr_title ← get_prop pr "title";
  pr_url ← get_prop pr "url";
  pr_state ← get_prop pr "state";
  Ok (Some (mkPrInfo pr_number pr_title pr_url pr_state checks unresolvedThreads)).

Definition getPrByNumber (repo : string) (prNumber : Z) : Result (option PrInfo) :=
  try_catch
    (out ← execSync w ("gh pr view " +:+ Z_to_string prNumber +:+ " --repo " +:+ repo
                        +:+ " " +:+ PR_VIEW_FIELDS) None;
     let json := trim out in
     if String.eqb json "" then Ok None else
     pr ← JSON_parse json;
     pr_number ← get_prop pr "number";
     if negb (truthy pr_number) then Ok None else
     pr_url ← get_prop pr "url";
     if negb (truthy pr_url) then Ok None else
     checks ← rollupChecks pr;
     let parts := split "/" repo in
     unresolvedThreads ←
       match parts !! 0%nat, parts !! 1%nat with
       | Some owner, Some name =>
           if negb (String.eqb owner "") && negb (String.eqb name "") then
             pr_number ← get_prop pr "number";
             queryUnresolvedThreads (graphql_command owner name (ToString pr_number)) None
           else Ok 0
       | _, _ => Ok 0
       end;
     makePrInfo pr checks unresolvedThreads)
    (Ok None).

Definition getPrForBranch (cwd : string) (repo : option RepoInfo) : Result (option PrInfo) :=
  try_catch
    (out ← execSync w ("gh pr view " +:+ PR_VIEW_FIELDS) (Some cwd);
     let json := trim out in
     if String.eqb json "" then Ok None else
     pr ← JSON_parse json;
     pr_number ← get_prop pr "number";
     if negb (truthy pr_number) then Ok None else
     pr_url ← get_prop pr "url";
     if negb (truthy pr_url) then Ok None else
     checks ← rollupChecks pr;
     unresolvedThreads ←
       match repo with
       | Some repo =>
           pr_number ← get_prop pr "number";
           queryUnresolvedThreads
             (graphql_command (ToString (owner repo)) (ToString (name repo))
                              (ToString pr_number))
             (Some cwd)
       | None => Ok 0
       end;
     makePrInfo pr checks unresolvedThreads)
    (Ok None).

End Backend.

(** ** The extension ([src/unnamed/part_002])

    The closure variables of the extension function, together with the
    host's status bar: the one object every [ctx.ui] refers to, a map from
    status keys to the text shown. *)

Definition POLL_INTERVAL : Z := 30000.
Definition STATUS_KEY : string := "pr-status".

Module Pin.
Record t : Type := mk { repo : string; number : Z }.
End Pin.

Record ExtensionContext : Type := mkCtx {
  cwd : string
}.

Record Session : Type := mkSession {
  timer : bool;
  lastBranch : option string;
  lastPr : option PrInfo;
  cachedRepo : option RepoInfo;
  pinnedPr : option Pin.t;
  latestCtx : option ExtensionContext;
  statusBar : gmap string string
}.

Definition initial : Session := mkSession false None None None None None ∅.

Definition set_timer (v : bool) (s : Session) : Session :=
  mkSession v (lastBranch s) (lastPr s) (cachedRepo s) (pinnedPr s) (latestCtx s) (statusBar s).
Definition set_lastBranch (v : option string) (s : Session) : Session :=
  mkSession (timer s) v (lastPr s) (cachedRepo s) (pinnedPr s) (latestCtx s) (statusBar s).
Definition set_lastPr (v : option PrInfo) (s : Session) : Session :=
  mkSession (timer s) (lastBranch s) v (cachedRepo s) (pinnedPr s) (latestCtx s) (statusBar s).
Definition set_cachedRepo (v : option RepoInfo) (s : Session) : Session :=
  mkSession (timer s) (lastBranch s) (lastPr s) v (pinnedPr s) (latestCtx s) (statusBar s).
Definition set_pinnedPr (v : option Pin.t) (s : Session) : Session :=
  mkSession (timer s) (lastBranch s) (lastPr s) (cachedRepo s) v (latestCtx s) (statusBar s).
Definition set_latestCtx (v : option ExtensionContext) (s : Session) : Session :=
  mkSession (timer s) (lastBranch s) (lastPr s) (cachedRepo s) (pinnedPr s) v (statusBar s).
Definition set_statusBar (v : gmap string string) (s : Session) : Session :=
  mkSession (timer s) (lastBranch s) (lastPr s) (cachedRepo s) (pinnedPr s) (latestCtx s) v.

(** [ui.setStatus(key, value)]: [undefined] clears the entry. *)
Definition setStatus (key : string) (v : option string) (bar : gmap string string)
  : gmap string string :=
  match v with
  | Some text => <[key := text]> bar
  | None => delete key bar
  end.

(** What the status bar shows for this extension. *)
Definition displayed (s : Session) : option string := statusBar s !! STATUS_KEY.

Definition hasActiveBranchPr (s : Session) : bool :=
  match lastPr s with
  | Some pr => strict_eq_str (state pr) "OPEN"
  | None => false
  end.

Definition showStatus (pr : option PrInfo) (s : Session) : Session :=
  let s := set_lastPr pr s in
  set_statusBar (setStatus STATUS_KEY (formatStatus <$> lastPr s) (statusBar s)) s.

(** [!branch]: [undefined] and the empty string. *)
Definition no_branch (branch : option string) : bool :=
  match branch with
  | Some b => String.eqb b ""
  | None => true
  end.

(** [branch === "HEAD"] *)
Definition is_HEAD (branch : option string) : bool :=
  match branch with
  | Some b => String.eqb b "HEAD"
  | None => false
  end.

(** [branch === lastBranch] on [string | undefined]. *)
Definition same_branch (a b : option string) : bool :=
  match a, b with
  | Some x, Some y => String.eqb x y
  | None, None => true
  | _, _ => false
  end.

(** [pinnedPr?.repo === parsed.repo && pinnedPr?.number === parsed.number] *)
Definition same_pin (pinned : option Pin.t) (parsed : Parsed.t) : bool :=
  match pinned with
  | Some pin =>
      String.eqb (Pin.repo pin) (Parsed.repo parsed)
      && (Pin.number pin =? Parsed.number parsed)
  | None => false
  end.

Section Extension.

Variable JSON_parse : string -> Result value.

(** [if (!cachedRepo) cachedRepo = getRepoInfo(cwd);] *)
Definition ensureCachedRepo (w : World) (cwd : string) (s : Session) : Result Session :=
  match cachedRepo s with
  | Some _ => Ok s
  | None =>
      repo ← getRepoInfo JSON_parse w cwd;
      Ok (set_cachedRepo repo s)
  end.

Definition update (w : World) (cwd : string) (s : Session) : Result Session :=
  match pinnedPr s with
  | Some pin =>
      pr ← getPrByNumber JSON_parse w (Pin.repo pin) (Pin.number pin);
      let s := showStatus pr s in
      match pr with
      | Some _ =>
          branch ← getBranch w cwd;
          let s :=
            if negb (no_branch branch) && negb (is_HEAD branch)
               && negb (same_branch branch (lastBranch s))
            then set_lastBranch branch s else s in
          if negb (no_branch branch) && negb (is_HEAD branch) then
            s ← ensureCachedRepo w cwd s;
            branchPr ← getPrForBranch JSON_parse w cwd (cachedRepo s);
            match branchPr with
            | Some bpr =>
                if strict_eq_str (state bpr) "OPEN"
                then Ok (showStatus branchPr (set_pinnedPr None s))
                else Ok s
            | None => Ok s
            end
          else Ok s
      | None => Ok s
      end
  | None =>
      branch ← getBranch w cwd;
      let s :=
        if negb (same_branch branch (lastBranch s))
        then set_lastPr None (set_lastBranch branch s) else s in
      if no_branch branch || is_HEAD branch then Ok (showStatus None s)
      else
        s ← ensureCachedRepo w cwd s;
        pr ← getPrForBranch JSON_parse w cwd (cachedRepo s);
        Ok (showStatus pr s)
  end.

Definition tryPinFromUrl (w : World) (text : string) (ctx : ExtensionContext) (s : Session)
  : Result Session :=
  match parsePrUrl text with
  | None => Ok s
  | Some parsed =>
      if same_pin (pinnedPr s) parsed then Ok s
      else if hasActiveBranchPr s then Ok s
      else
        let s := set_pinnedPr (Some (Pin.mk (Parsed.repo parsed) (Parsed.number parsed))) s in
        let s := set_latestCtx (Some ctx) s in
        pr ← getPrByNumber JSON_parse w (Parsed.repo parsed) (Parsed.number parsed);
        Ok (showStatus pr s)
  end.

(** *** Event handlers.  The [input] handler answers [{action: "continue"}]
    on every path; that constant is left out. *)

Record InputEvent : Type := mkInput {
  source : string;
  text : string
}.

Definition on_input (w : World) (event : InputEvent) (ctx : ExtensionContext) (s : Session)
  : Result Session :=
  if String.eqb (source event) "extension" then Ok s
  else tryPinFromUrl w (text event) ctx (set_latestCtx (Some ctx) s).

Definition on_before_agent_start (w : World) (prompt : string) (ctx : ExtensionContext)
           (s : Session) : Result Session :=
  tryPinFromUrl w prompt ctx (set_latestCtx (Some ctx) s).

(** The callback given to [setInterval]: one poll tick. *)
Definition on_tick (w : World) (s : Session) : Result Session :=
  match latestCtx s with
  | Some ctx => update w (cwd ctx) s
  | None => Ok s
  end.

Definition on_session_start (w : World) (ctx : ExtensionContext) (s : Session)
  : Result Session :=
  s ← update w (cwd ctx) (set_latestCtx (Some ctx) s);
  Ok (set_timer true s).

Definition on_session_switch (w : World) (ctx : ExtensionContext) (s : Session)
  : Result Session :=
  let s := set_lastBranch None s in
  let s := set_lastPr None s in
  let s := set_cachedRepo None s in
  let s := set_pinnedPr None s in
  let s := set_latestCtx (Some ctx) s in
  update w (cwd ctx) s.

Definition on_session_shutdown (s : Session) : Result Session :=
  if timer s then Ok (set_timer false s) else Ok s.

(** A run of poll ticks, each against the world of its time. *)
Fixpoint ticks (ws : list World) (cwd : string) (s : Session) : Result Session :=
  match ws with
  | [] => Ok s
  | w :: rest => s' ← update w cwd s; ticks rest cwd s'
  end.

(** The repository coordinates a poll tick passes to the branch query: the
    cached ones, or else the ones it looks up (and caches) now. *)
Definition repoFor (w : World) (cwd : string) (s : Session) : option RepoInfo :=
  match cachedRepo s with
  | Some r => Some r
  | None =>
      match getRepoInfo JSON_parse w cwd with
      | Ok r => r
      | Throw _ => None
      end
  end.

End Extension.

(** ** Check records as the type [Record<string, string>] describes them

    A record of the check rollup carries a conclusion, a status and a name,
    each a string or missing ([null] in the backend's JSON). *)

Module Check.
Record t : Type := mk {
  conclusion : option string;
  status : option string;
  name : option string
}.

Definition field (o : option string) : value :=
  match o with
  | Some s => VStr s
  | None => VNull
  end.

Definition to_value (c : t) : value :=
  VObj [("conclusion", field (conclusion c));
        ("name", field (name c));
        ("status", field (status c))].

(** The record carries the field: it is present and not empty. *)
Definition carries (o : option string) : bool :=
  match o with
  | Some s => negb (String.eqb s "")
  | None => false
  end.

(** Not a ghost record: at least one of the three fields is carried. *)
Definition counted (c : t) : bool :=
  carries (name c) || carries (conclusion c) || carries (status c).

(** The field, when there, is ASCII text: [toUpperCase] is then the
    upper-casing of the language on it. *)
Definition ascii (o : option string) : bool :=
  match o with
  | Some s => ascii_only s
  | None => true
  end.

(** The text a field is matched by: upper-cased, empty when missing. *)
Definition upper (o : option string) : string :=
  match o with
  | Some s => toUpperCase s
  | None => ""
  end.
End Check.

(** The status vocabulary of the specification: what a counted record whose
    conclusion is in neither list is classified as. *)
Definition classify_by_status (status : string) (checks : CheckStatus) : CheckStatus :=
  if is_pending_status status then incr_pending checks
  else if String.eqb status "COMPLETED" then incr_pass checks
  else incr_pending checks.

(** ** Notions the statements below are written with *)

(** The segments of the status line as the specification lists them. *)
Definition checks_segment (c : CheckStatus) : list string :=
  if total c <=? 0 then []
  else if 0 <? fail c then
    ["❌ " +:+ Z_to_string (fail c) +:+ "/" +:+ Z_to_string (total c) +:+ " checks failed"]
  else if 0 <? pending c then
    ["⏳ " +:+ Z_to_string (pending c) +:+ "/" +:+ Z_to_string (total c) +:+ " checks pending"]
  else ["✅ " +:+ Z_to_string (total c) +:+ " checks passed"].

Definition unresolved_segment (n : Z) : list string :=
  if n <=? 0 then [] else ["💬 " +:+ Z_to_string n +:+ " unresolved"].

(** [s] begins with the text [p]. *)
Fixpoint starts_with (p s : string) : bool :=
  match p with
  | EmptyString => true
  | String a p' =>
      match s with
      | String b s' => Ascii.eqb a b && starts_with p' s'
      | EmptyString => false
      end
  end.

Fixpoint str_forall (cls : ascii -> bool) (s : string) : bool :=
  match s with
  | String c rest => cls c && str_forall cls rest
  | EmptyString => true
  end.

(** The first character of [s], if there is one, is in the class. *)
Definition head_in (cls : ascii -> bool) (s : string) : bool :=
  match s with
  | String c _ => cls c
  | EmptyString => false
  end.

Definition URL_42 : string := "https://github.com/owner/repo/pull/42".

(** The required field is there and usable: [pr.k] is truthy. *)
Definition field_present (pr : value) (k : string) : bool :=
  match get_prop pr k with
  | Ok v => truthy v
  | Throw _ => false
  end.

(** The review-thread query fails or answers in a malformed shape: the
    process fails, its output is not JSON, the [nodes] path of the answer
    does not lead to an array, or the array holds a [null]. *)
Definition threads_query_unusable (JSON_parse : string -> Result value) (w : World)
           (command : string) (cwd : option string) : Prop :=
  (exists e, execSync w command cwd = Throw e)
  \/ (exists out e, execSync w command cwd = Ok out /\ JSON_parse (trim out) = Throw e)
  \/ (exists out data nodes,
        execSync w command cwd = Ok out /\ JSON_parse (trim out) = Ok data
        /\ reviewThreads_nodes data = Ok nodes
        /\ (isArray nodes = false \/ exists items, nodes = VArr items /\ In VNull items)).

(** The value of [pr.k] where the access cannot throw. *)
Definition prop (v : value) (k : string) : value :=
  match get_prop v k with
  | Ok x => x
  | Throw _ => VUndefined
  end.

(** ** A small backend to run the handlers on

    The responses of the processes are short tags and [demo_parse] stands
    for [JSON.parse] on them. *)

Definition demo_response (n : Z) (st : string) : value :=
  VObj [("number", VNum n);
        ("title", VStr "Big PR");
        ("url", VStr ("https://github.com/o/r/pull/" +:+ Z_to_string n));
        ("state", VStr st);
        ("statusCheckRollup",
         VArr [VObj [("conclusion", VStr "SUCCESS"); ("status", VStr "COMPLETED");
                     ("name", VStr "ci")]])].

Definition demo_parse (s : string) : Result value :=
  if String.eqb s "<pr 7>" then Ok (demo_response 7 "OPEN")
  else if String.eqb s "<pr 8>" then Ok (demo_response 8 "OPEN")
  else if String.eqb s "<pr 9>" then Ok (demo_response 9 "OPEN")
  else Throw SyntaxError.

Definition demo_info (n : Z) : PrInfo :=
  mkPrInfo (VNum n) (VStr "Big PR")
           (VStr ("https://github.com/o/r/pull/" +:+ Z_to_string n))
           (VStr "OPEN") (mkCheckStatus 1 1 0 0) 0.

(** Every process fails: no git, no network. *)
Definition w_offline : World := mkWorld (fun _ _ => Throw ExecError).

(** Pull requests 7 and 8 of [o/r] can be queried by number; the working
    directory is not a repository. *)
Definition w_by_number : World :=
  mkWorld (fun command _ =>
    if String.eqb command ("gh pr view 7 --repo o/r " +:+ PR_VIEW_FIELDS)
    then Ok "<pr 7>"
    else if String.eqb command ("gh pr view 8 --repo o/r " +:+ PR_VIEW_FIELDS)
    then Ok "<pr 8>"
    else Throw ExecError).

(** As [w_by_number], and the working directory is on branch [feature],
    which has the open pull request 9; the review-thread query fails. *)
Definition w_on_branch : World :=
  mkWorld (fun command dir =>
    if String.eqb command "git rev-parse --abbrev-ref HEAD"
    then Ok ("feature" +:+ String (ascii_of_nat 10) EmptyString)
    else if String.eqb command ("gh pr view " +:+ PR_VIEW_FIELDS)
    then Ok "<pr 9>"
    else execSync w_by_number command dir).

Definition demo_ctx : ExtensionContext := mkCtx "/work".

Definition pin_7 : Pin.t := Pin.mk "o/r" 7.

(** A session pinned to pull request 7 of [o/r], nothing shown yet. *)
Definition pinned_session : Session :=
  set_latestCtx (Some demo_ctx) (set_pinnedPr (Some pin_7) initial).

(** A session that shows the open pull request 7. *)
Definition showing_session : Session := showStatus (Some (demo_info 7)) initial.

Definition mention_7 : InputEvent :=
  mkInput "interactive" "lets continue this PR: https://github.com/o/r/pull/7".

Definition mention_8 : InputEvent :=
  mkInput "interactive" "compare with https://github.com/o/r/pull/8".

(** ** Notions for the further properties *)

(** The component-wise sum of two tallies. *)
Definition tally_add (a b : CheckStatus) : CheckStatus :=
  mkCheckStatus (total a + total b) (pass a + pass b) (fail a + fail b)
                (pending a + pending b).

(** A review thread as the GraphQL answer has it: [{isResolved: b}]. *)
Definition thread_value (isResolved : bool) : value :=
  VObj [("isResolved", VBool isResolved)].

(** The text of a pull-request URL. *)
Definition pr_url (owner repo digits : string) : string :=
  "https://github.com/" +:+ owner +:+ "/" +:+ repo +:+ "/pull/" +:+ digits.

(** The invariant of a tally: non-negative buckets that add up to the total. *)
Definition valid_tally (c : CheckStatus) : Prop :=
  0 <= pass c /\ 0 <= fail c /\ 0 <= pending c
  /\ pass c + fail c + pending c = total c.

(** The command line of the query by number. *)
Definition pr_view_command (repo : string) (prNumber : Z) : string :=
  "gh pr view " +:+ Z_to_string prNumber +:+ " --repo " +:+ repo +:+ " " +:+ PR_VIEW_FIELDS.

(** The answer of [gh pr view] is usable: the process succeeds, its output
    is not blank and parses to a value with a truthy [number] and [url]
    whose check rollup aggregates to [cs]. *)
Definition usable_answer (JSON_parse : string -> Result value) (answer : Result string)
           (pr : value) (cs : CheckStatus) : Prop :=
  exists out : string,
    answer = Ok out /\ trim out <> ""
    /\ JSON_parse (trim out) = Ok pr
    /\ truthy (prop pr "number") = true /\ truthy (prop pr "url") = true
    /\ rollupChecks pr = Ok cs.

(** The backend answers with typed data, as far as the program prints it:
    in whatever an output of a process parses to, the fields that end up in
    a template literal or in [join] ([number], [url], [owner.login], [name])
    are primitive (a number, a string, missing), never an object or an
    array.  On such answers [ToString] is the conversion of the language and
    [formatStatus], which the handlers call outside every [try], cannot
    throw. *)
Definition typed_world (JSON_parse : string -> Result value) (w : World) : Prop :=
  forall (command : string) (dir : option string) (out : string) (v : value),
    execSync w command dir = Ok out ->
    JSON_parse (trim out) = Ok v ->
    primitive (prop v "number") = true
    /\ primitive (prop v "url") = true
    /\ primitive (prop (prop v "owner") "login") = true
    /\ primitive (prop v "name") = true.

(** The events the host sends, each with the context it carries, and the
    handler the extension registered for it. *)
Inductive Event : Type :=
  | EvInput (event : InputEvent) (ctx : ExtensionContext)
  | EvBeforeAgentStart (prompt : string) (ctx : ExtensionContext)
  | EvSessionStart (ctx : ExtensionContext)
  | EvSessionSwitch (ctx : ExtensionContext)
  | EvSessionShutdown
  | EvTick.

Definition handle (JSON_parse : string -> Result value) (w : World) (ev : Event)
           (s : Session) : Result Session :=
  match ev with
  | EvInput event ctx => on_input JSON_parse w event ctx s
  | EvBeforeAgentStart prompt ctx => on_before_agent_start JSON_parse w prompt ctx s
  | EvSessionStart ctx => on_session_start JSON_parse w ctx s
  | EvSessionSwitch ctx => on_session_switch JSON_parse w ctx s
  | EvSessionShutdown => on_session_shutdown s
  | EvTick => on_tick JSON_parse w s
  end.

(** A history of the session: the events in the order they arrive, each
    with the world at its time. *)
Fixpoint run (JSON_parse : string -> Result value) (history : list (World * Event))
         (s : Session) : Result Session :=
  match history with
  | [] => Ok s
  | (w, ev) :: rest => s' ← handle JSON_parse w ev s; run JSON_parse rest s'
  end.

(** The status bar shows the formatted last pull request, or nothing. *)
Definition in_sync (s : Session) : Prop :=
  displayed s = formatStatus <$> lastPr s.

Definition well_formed_pr (pr : PrInfo) : Prop :=
  truthy (number pr) = true /\ truthy (url pr) = true
  /\ valid_tally (checks pr) /\ 0 <= unresolvedThreads pr.

Definition well_formed_repo (r : RepoInfo) : Prop :=
  truthy (owner r) = true /\ truthy (name r) = true.

Definition well_formed_pin (pin : Pin.t) : Prop :=
  0 <= Pin.number pin
  /\ exists o nm : string,
       Pin.repo pin = o +:+ "/" +:+ nm
       /\ o <> "" /\ str_forall not_slash o = true
       /\ nm <> "" /\ str_forall not_slash nm = true.

(** Where a pull request shown by the selector comes from: nowhere, or one
    of the two queries against the world of the event. *)
Definition from_query (JSON_parse : string -> Result value) (w : World)
           (lp : option PrInfo) : Prop :=
  lp = None
  \/ (exists repo n, getPrByNumber JSON_parse w repo n = Ok lp)
  \/ (exists dir r, getPrForBranch JSON_parse w dir r = Ok lp).

(** What holds of a session after any history of events. *)
Definition session_invariant (s : Session) : Prop :=
  in_sync s
  /\ (forall k : string, k <> STATUS_KEY -> statusBar s !! k = None)
  /\ (forall pr, lastPr s = Some pr -> well_formed_pr pr)
  /\ (forall r, cachedRepo s = Some r -> well_formed_repo r)
  /\ (forall pin, pinnedPr s = Some pin -> well_formed_pin pin).

Definition is_switch (ev : Event) : bool :=
  match ev with
  | EvSessionSwitch _ => true
  | _ => false
  end.

(** The events that carry text of the user. *)
Definition is_input (ev : Event) : bool :=
  match ev with
  | EvInput _ _ | EvBeforeAgentStart _ _ => true
  | _ => false
  end.

(** ** The extension before pinning

    [src/extensions/pr-status.ts] is the extension as it was before pull
    requests could be pinned by URL.  Its helpers ([getBranch],
    [getRepoInfo], [parseChecks], [getPrForBranch], [formatStatus]) are the
    ones above, line for line; its closure has no [pinnedPr] and no
    [latestCtx], and the interval started by [session_start] polls the
    context it was started with. *)

Module Legacy.

Record Session : Type := mkSession {
  timer : bool;
  lastBranch : option string;
  lastPr : option PrInfo;
  cachedRepo : option RepoInfo;
  statusBar : gmap string string
}.

Definition initial : Session := mkSession false None None None ∅.

Section Extension.

Variable JSON_parse : string -> Result value.

Definition update (w : World) (cwd : string) (s : Session) : Result Session :=
  branch ← getBranch w cwd;
  let s :=
    if negb (same_branch branch (lastBranch s))
    then mkSession (timer s) branch None (cachedRepo s) (statusBar s) else s in
  if no_branch branch || is_HEAD branch then
    Ok (mkSession (timer s) (lastBranch s) None (cachedRepo s)
          (setStatus STATUS_KEY None (statusBar s)))
  else
    repo ← match cachedRepo s with
           | Some r => Ok (Some r)
           | None => getRepoInfo JSON_parse w cwd
           end;
    pr ← getPrForBranch JSON_parse w cwd repo;
    Ok (mkSession (timer s) (lastBranch s) pr repo
          (setStatus STATUS_KEY (formatStatus <$> pr) (statusBar s))).

Definition on_session_start (w : World) (ctx : ExtensionContext) (s : Session)
  : Result Session :=
  s ← update w (cwd ctx) s;
  Ok (mkSession true (lastBranch s) (lastPr s) (cachedRepo s) (statusBar s)).

(** The callback of the interval that [session_start] started with [ctx]. *)
Definition on_tick (w : World) (ctx : ExtensionContext) (s : Session) : Result Session :=
  update w (cwd ctx) s.

Definition on_session_switch (w : World) (ctx : ExtensionContext) (s : Session)
  : Result Session :=
  update w (cwd ctx) (mkSession (timer s) None None None (statusBar s)).

Definition on_session_shutdown (s : Session) : Result Session :=
  if timer s
  then Ok (mkSession false (lastBranch s) (lastPr s) (cachedRepo s) (statusBar s))
  else Ok s.

Inductive Event : Type :=
  | EvSessionStart (ctx : ExtensionContext)
  | EvSessionSwitch (ctx : ExtensionContext)
  | EvSessionShutdown
  | EvTick (ctx : ExtensionContext).

Definition handle (w : World) (ev : Event) (s : Session) : Result Session :=
  match ev with
  | EvSessionStart ctx => on_session_start w ctx s
  | EvSessionSwitch ctx => on_session_switch w ctx s
  | EvSessionShutdown => on_session_shutdown s
  | EvTick ctx => on_tick w ctx s
  end.

End Extension.
End Legacy.

(** The part of a session the earlier extension has too. *)
Definition forget (s : Session) : Legacy.Session :=
  Legacy.mkSession (timer s) (lastBranch s) (lastPr s) (cachedRepo s) (statusBar s).

(** The event of the earlier extension that an event of the host is: the
    three session events.  The input events do not exist there, and a poll
    tick is not the same event: the interval of the earlier extension polls
    the context of its [session_start], this one the latest context. *)
Definition as_legacy (ev : Event) : option Legacy.Event :=
  match ev with
  | EvSessionStart ctx => Some (Legacy.EvSessionStart ctx)
  | EvSessionSwitch ctx => Some (Legacy.EvSessionSwitch ctx)
  | EvSessionShutdown => Some Legacy.EvSessionShutdown
  | EvTick | EvInput _ _ | EvBeforeAgentStart _ _ => None
  end.

(** ** A backend with review threads

    As the small backend above, with a repository [o/r] that [gh repo view]
    reports, pull request 9 also reachable by number, and three review
    threads on it, one of them resolved.  The answers do not depend on the
    working directory. *)

Definition demo_threads (bs : list bool) : value :=
  VObj [("data",
         VObj [("repository",
                VObj [("pullRequest",
                       VObj [("reviewThreads",
                              VObj [("nodes", VArr (map thread_value bs))])])])])].

Definition demo_repo : value :=
  VObj [("owner", VObj [("login", VStr "o")]); ("name", VStr "r")].

Definition repo_o_r : RepoInfo := mkRepoInfo (VStr "o") (VStr "r").

(** A pull request whose check rollup holds a [null]. *)
Definition broken_response : value :=
  VObj [("number", VNum 9);
        ("title", VStr "Big PR");
        ("url", VStr "https://github.com/o/r/pull/9");
        ("state", VStr "OPEN");
        ("statusCheckRollup",
         VArr [VObj [("conclusion", VStr "SUCCESS"); ("status", VStr "COMPLETED");
                     ("name", VStr "ci")];
               VNull])].

Definition review_parse (s : string) : Result value :=
  if String.eqb s "<threads>" then Ok (demo_threads [false; true; false])
  else if String.eqb s "<repo>" then Ok demo_repo
  else if String.eqb s "<broken pr>" then Ok broken_response
  else demo_parse s.

Definition w_reviewed : World :=
  mkWorld (fun command dir =>
    if String.eqb command "gh repo view --json owner,name" then Ok "<repo>"
    else if String.eqb command (graphql_command "o" "r" "9") then Ok "<threads>"
    else if String.eqb command (pr_view_command "o/r" 9) then Ok "<pr 9>"
    else execSync w_on_branch command dir).

(** Only [/work] is a repository: there the branch is [feature] with the
    open pull request 9; every other directory is none. *)
Definition w_work_only : World :=
  mkWorld (fun command dir =>
    match dir with
    | Some d => if String.eqb d "/work" then execSync w_on_branch command dir
                else Throw ExecError
    | None => Throw ExecError
    end).

Definition elsewhere_ctx : ExtensionContext := mkCtx "/elsewhere".

Definition w_broken : World :=
  mkWorld (fun command _ =>
    if String.eqb command ("gh pr view " +:+ PR_VIEW_FIELDS) then Ok "<broken pr>"
    else Throw ExecError).

(** The session after a poll tick on branch [feature] of [w_on_branch]. *)
Definition on_feature : Session :=
  showStatus (Some (demo_info 9)) (set_lastBranch (Some "feature") initial).

(** * Properties *)

(** ** The definitions on the inputs of the test suite *)

Example Z_to_string_samples :
  Z_to_string 0 = "0" /\ Z_to_string 42 = "42" /\ Z_to_string (-5) = "-5".
Proof. repeat split; reflexivity. Qed.

Example formatStatus_basePr :
  formatStatus basePr = "🟢 PR #42 · https://github.com/owner/repo/pull/42".
Proof. reflexivity. Qed.

Example parseChecks_mixed :
  parseChecks [VObj [("conclusion", VStr "success"); ("status", VStr "completed")];
               VObj [("conclusion", VNull); ("name", VNull); ("status", VNull)];
               VObj [("conclusion", VStr ""); ("status", VStr "IN_PROGRESS")];
               VObj [("name", VStr "deploy"); ("status", VStr "COMPLETED")];
               VObj [("conclusion", VStr "failure"); ("status", VStr "completed")]]
  = Ok (mkCheckStatus 4 2 1 1).
Proof. reflexivity. Qed.

Example parsePrUrl_plain :
  parsePrUrl "https://github.com/owner/repo/pull/42"
  = Some (Parsed.mk "https://github.com/owner/repo/pull/42" "owner/repo" 42).
Proof. reflexivity. Qed.

Example parsePrUrl_embedded :
  parsePrUrl "lets continue this PR: https://github.com/bruno-garcia/code-review-trends/pull/22"
  = Some (Parsed.mk "https://github.com/bruno-garcia/code-review-trends/pull/22"
                    "bruno-garcia/code-review-trends" 22).
Proof. reflexivity. Qed.

Example parsePrUrl_trailing :
  parsePrUrl "check https://github.com/a/b/pull/1 please"
  = Some (Parsed.mk "https://github.com/a/b/pull/1" "a/b" 1).
Proof. reflexivity. Qed.

Example parsePrUrl_no_url : parsePrUrl "just some text" = None.
Proof. reflexivity. Qed.

Example split_owner_repo : split "/" "owner/repo" = ["owner"; "repo"].
Proof. reflexivity. Qed.

Example trim_newline : trim (" main" +:+ String (ascii_of_nat 10) "") = "main".
Proof. reflexivity. Qed.

(** ** The aggregator *)

Lemma toUpperCase_empty (s : string) :
  String.eqb (toUpperCase s) "" = String.eqb s "".
Proof. destruct s; reflexivity. Qed.

Lemma call_toUpperCase_field (o : option string) :
  call_toUpperCase (js_or (Check.field o) (VStr "")) = Ok (Check.upper o).
Proof.
  destruct o as [s|]; [|reflexivity].
  unfold js_or; simpl. destruct (String.eqb s "") eqn:E; simpl; [|reflexivity].
  apply String.eqb_eq in E. subst s. reflexivity.
Qed.

Lemma truthy_field (o : option string) :
  truthy (js_or (Check.field o) (VStr "")) = Check.carries o.
Proof.
  destruct o as [s|]; [|reflexivity].
  unfold js_or; simpl. destruct (String.eqb s "") eqn:E; simpl; [reflexivity|].
  rewrite E. reflexivity.
Qed.

Lemma upper_empty (o : option string) :
  String.eqb (Check.upper o) "" = negb (Check.carries o).
Proof.
  destruct o as [s|]; simpl; [|reflexivity].
  rewrite toUpperCase_empty, negb_involutive. reflexivity.
Qed.

(** One turn of the loop on a well-typed record. *)
Lemma parseChecks_loop_step (c : Check.t) (rest : list value) (acc : CheckStatus) :
  parseChecks_loop (Check.to_value c :: rest) acc
  = parseChecks_loop rest
      (if Check.counted c
       then count_check (Check.upper (Check.conclusion c)) (Check.upper (Check.status c)) acc
       else acc).
Proof.
  destruct c as [co st na].
  cbn [parseChecks_loop Check.to_value get_prop lookup_field String.eqb Ascii.eqb
       Bool.eqb Check.conclusion Check.status Check.name mbind Result_bind].
  rewrite !call_toUpperCase_field.
  cbn [mbind Result_bind].
  rewrite truthy_field, !upper_empty.
  unfold Check.counted; cbn [Check.conclusion Check.status Check.name].
  destruct (Check.carries na), (Check.carries co), (Check.carries st); reflexivity.
Qed.

Lemma count_check_total (co st : string) (acc : CheckStatus) :
  total (count_check co st acc) = total acc + 1.
Proof.
  unfold count_check.
  destruct (is_pass_conclusion co), (is_fail_conclusion co), (is_pending_status st),
    (String.eqb st "COMPLETED"); reflexivity.
Qed.

Lemma count_check_buckets (co st : string) (acc : CheckStatus) :
  pass (count_check co st acc) + fail (count_check co st acc)
  + pending (count_check co st acc)
  = pass acc + fail acc + pending acc + 1.
Proof.
  unfold count_check.
  destruct (is_pass_conclusion co), (is_fail_conclusion co), (is_pending_status st),
    (String.eqb st "COMPLETED"); simpl; lia.
Qed.

Lemma parseChecks_loop_typed (rs : list Check.t) (acc : CheckStatus) :
  exists t,
    parseChecks_loop (map Check.to_value rs) acc = Ok t
    /\ total t = total acc + Z.of_nat (length (filter (fun c => Check.counted c = true) rs))
    /\ pass t + fail t + pending t - total t
       = pass acc + fail acc + pending acc - total acc.
Proof.
  revert acc. induction rs as [|c rs IH]; intros acc.
  - exists acc. simpl. repeat split; lia.
  - rewrite map_cons, parseChecks_loop_step.
    rewrite filter_cons. destruct (Check.counted c) eqn:Hc.
    + destruct (IH (count_check (Check.upper (Check.conclusion c))
                                (Check.upper (Check.status c)) acc)) as (t & Ht & Htot & Hsum).
      exists t. split; [exact Ht|].
      rewrite count_check_total in Htot, Hsum.
      rewrite count_check_buckets in Hsum.
      rewrite decide_True by reflexivity. simpl length. split; lia.
    + destruct (IH acc) as (t & Ht & Htot & Hsum).
      exists t. rewrite decide_False by discriminate. auto.
Qed.

(** C3. For every sequence of check records, [parseChecks] returns a tally
    with [pass + fail + pending = total], and [total] is the number of
    records that carry a name, a conclusion or a status: ghost records, which
    carry none of the three, are not counted. *)
Theorem parseChecks_tally_invariant :
  forall rs : list Check.t,
  exists t : CheckStatus,
    parseChecks (map Check.to_value rs) = Ok t
    /\ pass t + fail t + pending t = total t
    /\ total t = Z.of_nat (length (filter (fun c => Check.counted c = true) rs)).
Proof.
  intros rs. unfold parseChecks.
  destruct (parseChecks_loop_typed rs (mkCheckStatus 0 0 0 0)) as (t & Ht & Htot & Hsum).
  exists t. simpl in Htot, Hsum. repeat split; [exact Ht | lia | lia].
Qed.

(** The same invariant on arbitrary parsed JSON: whenever the loop runs to
    its end without a TypeError, the buckets add up to the total. *)
Lemma parseChecks_loop_buckets (l : list value) (acc t : CheckStatus) :
  parseChecks_loop l acc = Ok t ->
  pass t + fail t + pending t - total t = pass acc + fail acc + pending acc - total acc.
Proof.
  revert acc. induction l as [|c l IH]; intros acc H.
  - injection H as <-. reflexivity.
  - cbn [parseChecks_loop] in H.
    destruct (get_prop c "conclusion") as [v1|]; [|discriminate H].
    cbn [mbind Result_bind] in H.
    destruct (call_toUpperCase (js_or v1 (VStr ""))) as [co|]; [|discriminate H].
    cbn [mbind Result_bind] in H.
    destruct (get_prop c "status") as [v2|]; [|discriminate H].
    cbn [mbind Result_bind] in H.
    destruct (call_toUpperCase (js_or v2 (VStr ""))) as [st|]; [|discriminate H].
    cbn [mbind Result_bind] in H.
    destruct (get_prop c "name") as [v3|]; [|discriminate H].
    cbn [mbind Result_bind] in H.
    destruct (negb (truthy (js_or v3 (VStr ""))) && String.eqb co "" && String.eqb st "").
    + apply IH, H.
    + apply IH in H. rewrite H, count_check_total, count_check_buckets. lia.
Qed.

Lemma parseChecks_buckets (l : list value) (t : CheckStatus) :
  parseChecks l = Ok t -> pass t + fail t + pending t = total t.
Proof.
  intros H. apply parseChecks_loop_buckets in H. simpl in H. lia.
Qed.

(** C6. A record whose upper-cased conclusion is SUCCESS, NEUTRAL or SKIPPED
    is counted as a pass, and one whose upper-cased conclusion is FAILURE,
    TIMED_OUT, CANCELLED or ACTION_REQUIRED as a failure, whatever its status
    and name; a counted record is classified by its status only when its
    conclusion is in neither list.  The last part is about records whose
    conclusion and status are ASCII text, where [toUpperCase] is the
    upper-casing of the language (a conclusion in one of the lists is ASCII
    text anyway). *)
Theorem parseChecks_conclusion_priority :
  forall (c : Check.t) (rest : list value) (acc : CheckStatus),
    let conclusion := Check.upper (Check.conclusion c) in
    let status := Check.upper (Check.status c) in
    (is_pass_conclusion conclusion = true ->
     parseChecks_loop (Check.to_value c :: rest) acc
     = parseChecks_loop rest (incr_pass (incr_total acc)))
    /\ (is_fail_conclusion conclusion = true ->
        parseChecks_loop (Check.to_value c :: rest) acc
        = parseChecks_loop rest (incr_fail (incr_total acc)))
    /\ (Check.counted c = true ->
        Check.ascii (Check.conclusion c) = true ->
        Check.ascii (Check.status c) = true ->
        is_pass_conclusion conclusion = false ->
        is_fail_conclusion conclusion = false ->
        parseChecks_loop (Check.to_value c :: rest) acc
        = parseChecks_loop rest (classify_by_status status (incr_total acc))).
Proof.
  intros c rest acc conclusion status. subst conclusion status.
  rewrite parseChecks_loop_step.
  assert (Hcarried : forall co, (is_pass_conclusion co || is_fail_conclusion co) = true ->
                                String.eqb co "" = false).
  { intros co H. destruct (String.eqb co "") eqn:E; [|reflexivity].
    apply String.eqb_eq in E. subst co. discriminate H. }
  assert (Hcounted : (is_pass_conclusion (Check.upper (Check.conclusion c))
                      || is_fail_conclusion (Check.upper (Check.conclusion c))) = true ->
                     Check.counted c = true).
  { intros H. apply Hcarried in H. rewrite upper_empty in H.
    unfold Check.counted. destruct (Check.carries (Check.conclusion c)); [|discriminate H].
    rewrite orb_true_r. reflexivity. }
  split; [|split].
  - intros Hp. rewrite Hcounted by (rewrite Hp; reflexivity).
    unfold count_check. rewrite Hp. reflexivity.
  - intros Hf. rewrite Hcounted by (rewrite Hf; apply orb_true_r).
    unfold count_check. rewrite Hf.
    destruct (is_pass_conclusion (Check.upper (Check.conclusion c))) eqn:Hp; [|reflexivity].
    exfalso. revert Hp Hf. unfold is_pass_conclusion, is_fail_conclusion.
    generalize (Check.upper (Check.conclusion c)). intros co Hp Hf.
    repeat (apply orb_true_iff in Hp; destruct Hp as [Hp|Hp]);
      apply String.eqb_eq in Hp; subst co; discriminate Hf.
  - intros Hc _ _ Hp Hf. rewrite Hc. unfold count_check, classify_by_status.
    rewrite Hp, Hf. reflexivity.
Qed.

(** ** The formatter *)

Lemma str_app_cons (x : ascii) (a b : string) : String x a +:+ b = String x (a +:+ b).
Proof. reflexivity. Qed.

Lemma str_app_assoc (a b c : string) : (a +:+ b) +:+ c = a +:+ b +:+ c.
Proof.
  induction a as [|x a IH]; [reflexivity|].
  rewrite !str_app_cons, IH. reflexivity.
Qed.

Lemma starts_with_app (p s : string) : starts_with p (p +:+ s) = true.
Proof.
  induction p as [|x p IH]; [reflexivity|].
  rewrite str_app_cons. simpl. rewrite Ascii.eqb_refl. exact IH.
Qed.

Lemma strict_eq_str_true (v : value) (lit : string) :
  strict_eq_str v lit = true -> v = VStr lit.
Proof.
  destruct v; simpl; try discriminate.
  intros H. apply String.eqb_eq in H. subst. reflexivity.
Qed.

Lemma strict_eq_str_false (v : value) (lit : string) :
  v <> VStr lit -> strict_eq_str v lit = false.
Proof.
  intros H. destruct (strict_eq_str v lit) eqn:E; [|reflexivity].
  apply strict_eq_str_true in E. contradiction.
Qed.

(** The line starts with the state glyph and the number, and something
    always follows them. *)
Lemma formatStatus_head (pr : PrInfo) :
  exists rest : string,
    formatStatus pr = stateIcon pr +:+ " PR #" +:+ ToString (number pr) +:+ " · " +:+ rest.
Proof.
  unfold formatStatus, Array_join.
  destruct (0 <? total (checks pr)), (0 <? fail (checks pr)), (0 <? pending (checks pr)),
    (0 <? unresolvedThreads pr);
    cbn [app map join ToString]; rewrite !str_app_assoc; eexists; reflexivity.
Qed.

(** C5. The status line of a pull request is its segments joined by [" · "],
    in the fixed order: state marker and number; then, only when
    [checks.total > 0], one checks segment (failed if [fail > 0], else
    pending if [pending > 0], else passed); then the unresolved segment
    exactly when [unresolvedThreads > 0]; then the URL.  For the tally
    [{total: 4, pass: 4, fail: 0, pending: 0}] and no unresolved thread the
    line is exactly [<marker> PR #<n> · ✅ 4 checks passed · <url>]. *)
Theorem formatStatus_segments :
  forall (n : Z) (title st : value) (u : string) (cs : CheckStatus) (unres : Z),
    let pr := mkPrInfo (VNum n) title (VStr u) st cs unres in
    formatStatus pr
    = join " · " ([stateIcon pr +:+ " PR #" +:+ Z_to_string n]
                  ++ checks_segment cs ++ unresolved_segment unres ++ [u])
    /\ (length (checks_segment cs) <= 1)%nat
    /\ (checks_segment cs = [] <-> total cs <= 0)
    /\ (unresolved_segment unres = [] <-> unres <= 0)
    /\ formatStatus (mkPrInfo (VNum n) title (VStr u) st (mkCheckStatus 4 4 0 0) 0)
       = stateIcon pr +:+ " PR #" +:+ Z_to_string n +:+ " · ✅ 4 checks passed · " +:+ u.
Proof.
  intros n title st u cs unres pr.
  split; [|split; [|split; [|split]]].
  - unfold formatStatus, Array_join, checks_segment, unresolved_segment.
    cbn [number url checks unresolvedThreads pr].
    rewrite (Z.leb_antisym 0 (total cs)), (Z.leb_antisym 0 unres).
    destruct (0 <? total cs), (0 <? fail cs), (0 <? pending cs), (0 <? unres);
      reflexivity.
  - unfold checks_segment.
    destruct (total cs <=? 0), (0 <? fail cs), (0 <? pending cs); simpl; lia.
  - unfold checks_segment.
    destruct (Z.leb_spec (total cs) 0); [tauto|].
    destruct (0 <? fail cs), (0 <? pending cs); split; (discriminate || lia).
  - unfold unresolved_segment.
    destruct (Z.leb_spec unres 0); [tauto|]. split; (discriminate || lia).
  - unfold formatStatus, Array_join.
    cbn [number url checks unresolvedThreads total fail pending pr Z.ltb Z.compare
         app map join ToString].
    change (stateIcon (mkPrInfo (VNum n) title (VStr u) st (mkCheckStatus 4 4 0 0) 0))
      with (stateIcon pr).
    rewrite !str_app_assoc. reflexivity.
Qed.

(** C9. A pull request whose state is neither ["MERGED"] nor ["CLOSED"]
    (an unknown state such as ["DRAFT"], the empty string or lower-case
    ["merged"] included) is rendered with the open marker 🟢; the purple and
    red markers appear for exactly the strings ["MERGED"] and ["CLOSED"]. *)
Theorem formatStatus_state_marker :
  forall pr : PrInfo,
    (state pr <> VStr "MERGED" -> state pr <> VStr "CLOSED" ->
     starts_with "🟢 PR #" (formatStatus pr) = true)
    /\ (starts_with "🟣 PR #" (formatStatus pr) = true <-> state pr = VStr "MERGED")
    /\ (starts_with "🔴 PR #" (formatStatus pr) = true <-> state pr = VStr "CLOSED").
Proof.
  intros pr. destruct (formatStatus_head pr) as [rest Hrest]. rewrite Hrest.
  unfold stateIcon.
  destruct (strict_eq_str (state pr) "MERGED") eqn:Hm;
    [|destruct (strict_eq_str (state pr) "CLOSED") eqn:Hc].
  - apply strict_eq_str_true in Hm. rewrite Hm.
    split; [intros H; contradiction|].
    split; split; intros H; try reflexivity; try discriminate H;
      cbv in H; discriminate H.
  - apply strict_eq_str_true in Hc. rewrite Hc.
    split; [intros _ H; contradiction|].
    split; split; intros H; try reflexivity; try discriminate H;
      cbv in H; discriminate H.
  - split; [intros _ _; reflexivity|].
    split; split; intros H; try (cbv in H; discriminate H).
    + rewrite H in Hm. discriminate Hm.
    + rewrite H in Hc. discriminate Hc.
Qed.

Example formatStatus_unknown_states :
  starts_with "🟢" (formatStatus (mkPrInfo (VNum 1) (VStr "t") (VStr "u") (VStr "DRAFT") zero_checks 0)) = true
  /\ starts_with "🟢" (formatStatus (mkPrInfo (VNum 1) (VStr "t") (VStr "u") (VStr "") zero_checks 0)) = true
  /\ starts_with "🟢" (formatStatus (mkPrInfo (VNum 1) (VStr "t") (VStr "u") (VStr "merged") zero_checks 0)) = true.
Proof. repeat split; reflexivity. Qed.

(** ** The URL parser *)

Lemma str_length_app (a b : string) :
  String.length (a +:+ b) = (String.length a + String.length b)%nat.
Proof.
  induction a as [|x a IH]; [reflexivity|].
  rewrite str_app_cons. simpl. rewrite IH. reflexivity.
Qed.

Lemma str_take_app (a b : string) : str_take (String.length a) (a +:+ b) = a.
Proof.
  induction a as [|x a IH]; [reflexivity|].
  rewrite str_app_cons. simpl. rewrite IH. reflexivity.
Qed.

Lemma str_drop_app (a b : string) : str_drop (String.length a) (a +:+ b) = b.
Proof.
  induction a as [|x a IH]; [reflexivity|].
  rewrite str_app_cons. simpl. exact IH.
Qed.

Lemma consumed_app (a b : string) : consumed (a +:+ b) b = a.
Proof.
  unfold consumed. rewrite str_length_app, Nat.add_sub. apply str_take_app.
Qed.

Lemma strip_prefix_app (p s : string) : strip_prefix p (p +:+ s) = Some s.
Proof.
  induction p as [|x p IH]; [reflexivity|].
  rewrite str_app_cons. simpl. rewrite Ascii.eqb_refl. exact IH.
Qed.

Lemma run_length_app (cls : ascii -> bool) (a rest : string) :
  str_forall cls a = true -> head_in cls rest = false ->
  run_length cls (a +:+ rest) = String.length a.
Proof.
  intros Ha Hrest. induction a as [|x a IH].
  - destruct rest as [|c rest]; [reflexivity|]. simpl in *. rewrite Hrest. reflexivity.
  - rewrite str_app_cons. simpl in *.
    apply andb_true_iff in Ha as [Hx Ha]. rewrite Hx, (IH Ha). reflexivity.
Qed.

(** The greedy repetition takes the whole run when the rest of the pattern
    matches after it. *)
Lemma try_down_first {A : Type} (a rest : string) (k : string -> option A) (x : A) :
  a <> "" -> k rest = Some x ->
  try_down (String.length a) (a +:+ rest) k = Some x.
Proof.
  intros Ha Hk. destruct (String.length a) as [|m] eqn:Hlen.
  - destruct a; [contradiction | discriminate Hlen].
  - cbn [try_down]. rewrite <- Hlen, str_drop_app, Hk. reflexivity.
Qed.

Lemma rplus_match {A : Type} (cls : ascii -> bool) (a rest : string)
      (k : string -> option A) (x : A) :
  a <> "" -> str_forall cls a = true -> head_in cls rest = false ->
  k rest = Some x ->
  try_down (run_length cls (a +:+ rest)) (a +:+ rest) k = Some x.
Proof.
  intros Ha Hcls Hrest Hk. rewrite run_length_app by assumption.
  apply try_down_first; assumption.
Qed.

(** The pattern matches a well-formed pull-request URL at the start of a
    text, provided no further digit follows the number. *)
Lemma match_here_PR_URL (owner repo digits post : string) :
  owner <> "" -> str_forall not_slash owner = true ->
  repo <> "" -> str_forall not_slash repo = true ->
  digits <> "" -> str_forall is_digit digits = true ->
  head_in is_digit post = false ->
  match_here PR_URL_RE
    ("https://github.com/" +:+ owner +:+ "/" +:+ repo +:+ "/pull/" +:+ digits +:+ post)
  = Some ("https://github.com/" +:+ owner +:+ "/" +:+ repo +:+ "/pull/" +:+ digits,
          [(2%nat, digits); (1%nat, owner +:+ "/" +:+ repo)]).
Proof.
  intros Ho Hos Hr Hrs Hd Hds Hpost.
  unfold match_here, PR_URL_RE. cbn [rmatch].
  rewrite strip_prefix_app.
  apply rplus_match; [assumption | assumption | reflexivity |].
  rewrite (strip_prefix_app "/").
  apply rplus_match; [assumption | assumption | reflexivity |].
  rewrite (strip_prefix_app "/pull/").
  apply rplus_match; [assumption | assumption | assumption |].
  rewrite consumed_app.
  replace (owner +:+ "/" +:+ repo +:+ "/pull/" +:+ digits +:+ post)
    with ((owner +:+ "/" +:+ repo) +:+ "/pull/" +:+ digits +:+ post)
    by (rewrite !str_app_assoc; reflexivity).
  rewrite consumed_app.
  replace ("https://github.com/" +:+ (owner +:+ "/" +:+ repo) +:+ "/pull/" +:+ digits +:+ post)
    with (("https://github.com/" +:+ owner +:+ "/" +:+ repo +:+ "/pull/" +:+ digits) +:+ post)
    by (rewrite !str_app_assoc; reflexivity).
  rewrite consumed_app. reflexivity.
Qed.

(** Positions at which the pattern does not match are skipped. *)
Lemma String_match_skip (r : regex) (pre rest : string) :
  (forall i : nat, (i < String.length pre)%nat ->
                   match_here r (str_drop i (pre +:+ rest)) = None) ->
  String_match (pre +:+ rest) r = String_match rest r.
Proof.
  induction pre as [|c pre IH]; intros Hnone; [reflexivity|].
  rewrite str_app_cons. cbn [String_match].
  pose proof (Hnone 0%nat) as H0. rewrite str_app_cons in H0. cbn [str_drop] in H0.
  rewrite H0 by (simpl; lia).
  apply IH. intros i Hi.
  specialize (Hnone (S i)). rewrite str_app_cons in Hnone. cbn [str_drop] in Hnone.
  apply Hnone. simpl. lia.
Qed.

Lemma String_match_here (r : regex) (text : string) (m : string * captures) :
  match_here r text = Some m -> String_match text r = Some m.
Proof. intros H. destruct text; cbn [String_match]; rewrite H; reflexivity. Qed.

Example parsePrUrl_following_digit :
  parsePrUrl (URL_42 +:+ "1")
  = Some (Parsed.mk "https://github.com/owner/repo/pull/421" "owner/repo" 421).
Proof. reflexivity. Qed.

Example parsePrUrl_earlier_url :
  parsePrUrl ("after https://github.com/a/b/pull/1 see " +:+ URL_42)
  = Some (Parsed.mk "https://github.com/a/b/pull/1" "a/b" 1).
Proof. reflexivity. Qed.

(** C7, as stated, fails: a text that contains the URL is not always mapped
    to repository ["owner/repo"] and number 42.  [text.match] returns the
    leftmost match, so in the prose
    [after https://github.com/a/b/pull/1 see https://github.com/owner/repo/pull/42]
    the parser answers ["a/b"] and 1.  (A digit right after the URL is taken
    into the number in the same way, see [parsePrUrl_following_digit].) *)
Lemma parsePrUrl_surrounding_text_counterexample :
  ~ (forall pre post : string,
       exists u : string,
         parsePrUrl (pre +:+ URL_42 +:+ post) = Some (Parsed.mk u "owner/repo" 42)).
Proof.
  intros H. destruct (H "after https://github.com/a/b/pull/1 see " "") as [u Hu].
  change ("after https://github.com/a/b/pull/1 see " +:+ URL_42 +:+ "")
    with ("after https://github.com/a/b/pull/1 see " +:+ URL_42) in Hu.
  rewrite parsePrUrl_earlier_url in Hu. discriminate Hu.
Qed.

(** C7, amended.  A text in which the URL
    [https://github.com/owner/repo/pull/42] is preceded by prose at no
    position of which the pattern matches, and followed by text that does
    not begin with a digit, is parsed to repository ["owner/repo"] and number
    42; the [/issues/42] URL alone gives no match. *)
Theorem parsePrUrl_url_in_prose :
  forall pre post : string,
    (forall i : nat, (i < String.length pre)%nat ->
       match_here PR_URL_RE (str_drop i (pre +:+ URL_42 +:+ post)) = None) ->
    head_in is_digit post = false ->
    parsePrUrl (pre +:+ URL_42 +:+ post) = Some (Parsed.mk URL_42 "owner/repo" 42)
    /\ parsePrUrl "https://github.com/owner/repo/issues/42" = None.
Proof.
  intros pre post Hpre Hpost. split; [|reflexivity].
  unfold parsePrUrl. rewrite String_match_skip by exact Hpre.
  rewrite (String_match_here PR_URL_RE (URL_42 +:+ post)
             (URL_42, [(2%nat, "42"); (1%nat, "owner/repo")])); [reflexivity|].
  apply (match_here_PR_URL "owner" "repo" "42" post); try reflexivity; try discriminate.
  exact Hpost.
Qed.

(** ** The status query *)

Lemma try_catch_total {A : Type} (body : Result A) (v : A) :
  exists r : A, try_catch body (Ok v) = Ok r.
Proof. destruct body as [a|e]; simpl; eauto. Qed.

Lemma countUnresolvedThreads_null (items : list value) :
  In VNull items -> exists e, countUnresolvedThreads items = Throw e.
Proof.
  induction items as [|t items IH]; intros Hin; [contradiction|].
  destruct Hin as [->|Hin]; [simpl; eauto|].
  destruct (IH Hin) as [e He]. cbn [countUnresolvedThreads].
  destruct (get_prop t "isResolved") as [r|e']; cbn [mbind Result_bind]; [|eauto].
  rewrite He. eauto.
Qed.

Lemma reviewThreads_nodes_total (data : value) :
  exists nodes, reviewThreads_nodes data = Ok nodes.
Proof.
  unfold reviewThreads_nodes.
  assert (H : forall v k, exists v', get_prop_opt v k = Ok v').
  { intros v k. destruct v; simpl; eauto. }
  destruct (H data "data") as [d ->]. cbn [mbind Result_bind].
  destruct (H d "repository") as [r ->]. cbn [mbind Result_bind].
  destruct (H r "pullRequest") as [q ->]. cbn [mbind Result_bind].
  destruct (H q "reviewThreads") as [t ->]. cbn [mbind Result_bind].
  apply H.
Qed.

Lemma queryUnresolvedThreads_unusable (JSON_parse : string -> Result value) (w : World)
      (command : string) (cwd : option string) :
  threads_query_unusable JSON_parse w command cwd ->
  queryUnresolvedThreads JSON_parse w command cwd = Ok 0.
Proof.
  unfold queryUnresolvedThreads.
  intros [[e He] | [(out & e & Hout & He) | (out & data & nodes & Hout & Hdata & Hnodes & Hbad)]].
  - rewrite He. reflexivity.
  - rewrite Hout. cbn [mbind Result_bind]. rewrite He. reflexivity.
  - rewrite Hout. cbn [mbind Result_bind]. rewrite Hdata. cbn [mbind Result_bind].
    rewrite Hnodes. cbn [mbind Result_bind].
    destruct Hbad as [Hna | (items & -> & Hin)].
    + destruct nodes; try reflexivity. discriminate Hna.
    + destruct (countUnresolvedThreads_null items Hin) as [e ->]. reflexivity.
Qed.

Lemma field_present_prop (pr : value) (k k' : string) :
  field_present pr k = true -> get_prop pr k' = Ok (prop pr k').
Proof. unfold field_present, prop. destruct pr; simpl; try discriminate; reflexivity. Qed.

Lemma field_present_truthy (pr : value) (k : string) :
  field_present pr k = true -> truthy (prop pr k) = true.
Proof. unfold field_present, prop. destruct (get_prop pr k); [auto | discriminate]. Qed.

(** C8. [getPrForBranch] never raises.  It returns absent when the backend
    process fails, when its output is empty or is not JSON, and when the
    parsed answer lacks a usable [number] or [url].  When the pull-request
    query succeeds and the review-thread query fails or answers in a
    malformed shape, it returns the pull request with [unresolvedThreads]
    equal to 0. *)
Theorem getPrForBranch_never_raises :
  forall (JSON_parse : string -> Result value) (w : World) (cwd : string)
         (repo : option RepoInfo),
    let primary := execSync w ("gh pr view " +:+ PR_VIEW_FIELDS) (Some cwd) in
    let result := getPrForBranch JSON_parse w cwd repo in
    (exists r, result = Ok r)
    /\ ((exists e, primary = Throw e) -> result = Ok None)
    /\ (forall out, primary = Ok out ->
        (trim out = "" -> result = Ok None)
        /\ ((exists e, JSON_parse (trim out) = Throw e) -> result = Ok None)
        /\ (forall pr, JSON_parse (trim out) = Ok pr ->
            (field_present pr "number" = false \/ field_present pr "url" = false ->
             result = Ok None)
            /\ (forall (cs : CheckStatus) (r : RepoInfo),
                trim out <> "" ->
                field_present pr "number" = true ->
                field_present pr "url" = true ->
                rollupChecks pr = Ok cs ->
                repo = Some r ->
                threads_query_unusable JSON_parse w
                  (graphql_command (ToString (owner r)) (ToString (name r))
                                   (ToString (prop pr "number")))
                  (Some cwd) ->
                result = Ok (Some (mkPrInfo (prop pr "number") (prop pr "title")
                                            (prop pr "url") (prop pr "state") cs 0))))).
Proof.
  intros JSON_parse w cwd repo primary result. subst primary result.
  split; [apply try_catch_total|].
  unfold getPrForBranch.
  split.
  { intros [e ->]. reflexivity. }
  intros out ->. cbn [mbind Result_bind].
  split.
  { intros ->. reflexivity. }
  split.
  { intros [e He]. destruct (String.eqb (trim out) ""); [reflexivity|].
    rewrite He. reflexivity. }
  intros pr Hpr. split.
  - intros Hlack. destruct (String.eqb (trim out) ""); [reflexivity|].
    rewrite Hpr. cbn [mbind Result_bind].
    unfold field_present in Hlack.
    destruct (get_prop pr "number") as [n|e]; [|reflexivity]. cbn [mbind Result_bind].
    destruct (truthy n); [|reflexivity]. cbn [negb].
    destruct Hlack as [Hn|Hu]; [discriminate Hn|].
    destruct (get_prop pr "url") as [u|e]; [|reflexivity]. cbn [mbind Result_bind].
    rewrite Hu. reflexivity.
  - intros cs r Hne Hnum Hurl Hcs -> Hq.
    destruct (String.eqb (trim out) "") eqn:Hempty.
    { apply String.eqb_eq in Hempty. contradiction. }
    rewrite Hpr. cbn [mbind Result_bind].
    rewrite (field_present_prop pr "number" "number" Hnum). cbn [mbind Result_bind].
    rewrite (field_present_truthy pr "number" Hnum). cbn [negb].
    rewrite (field_present_prop pr "number" "url" Hnum). cbn [mbind Result_bind].
    rewrite (field_present_truthy pr "url" Hurl). cbn [negb].
    rewrite Hcs. cbn [mbind Result_bind].
    rewrite (queryUnresolvedThreads_unusable _ _ _ _ Hq). cbn [mbind Result_bind].
    unfold makePrInfo.
    rewrite (field_present_prop pr "number" "number" Hnum). cbn [mbind Result_bind].
    rewrite (field_present_prop pr "number" "title" Hnum). cbn [mbind Result_bind].
    rewrite (field_present_prop pr "number" "url" Hnum). cbn [mbind Result_bind].
    rewrite (field_present_prop pr "number" "state" Hnum). reflexivity.
Qed.

(** ** The selector *)

Section SelectorFacts.

Variable JSON_parse : string -> Result value.

Lemma getBranch_total (w : World) (cwd : string) :
  exists b, getBranch w cwd = Ok b.
Proof. apply try_catch_total. Qed.

Lemma getRepoInfo_total (w : World) (cwd : string) :
  exists r, getRepoInfo JSON_parse w cwd = Ok r.
Proof. apply try_catch_total. Qed.

Lemma getPrByNumber_total (w : World) (repo : string) (n : Z) :
  exists pr, getPrByNumber JSON_parse w repo n = Ok pr.
Proof. apply try_catch_total. Qed.

Lemma getPrForBranch_total (w : World) (cwd : string) (repo : option RepoInfo) :
  exists pr, getPrForBranch JSON_parse w cwd repo = Ok pr.
Proof. apply try_catch_total. Qed.

Lemma displayed_showStatus (pr : option PrInfo) (s : Session) :
  displayed (showStatus pr s) = formatStatus <$> pr.
Proof.
  unfold displayed, showStatus. cbn [statusBar set_statusBar lastPr set_lastPr].
  destruct pr as [p|]; cbn [fmap option_fmap option_map setStatus].
  - apply lookup_insert_eq.
  - apply lookup_delete_eq.
Qed.

Lemma showStatus_None_idem (s : Session) :
  showStatus None (showStatus None s) = showStatus None s.
Proof.
  unfold showStatus, set_statusBar, set_lastPr. cbn. rewrite delete_delete_eq. reflexivity.
Qed.

Lemma ensureCachedRepo_spec (w : World) (cwd : string) (s : Session) :
  ensureCachedRepo JSON_parse w cwd s = Ok (set_cachedRepo (repoFor JSON_parse w cwd s) s).
Proof.
  unfold ensureCachedRepo, repoFor. destruct s as [t lb lp cr pp lc sb]. cbn.
  destruct cr as [r|]; [reflexivity|].
  destruct (getRepoInfo_total w cwd) as [r ->]. reflexivity.
Qed.

(** The step of a pinned session whose pinned query finds nothing. *)
Lemma update_pinned_absent (w : World) (cwd : string) (s : Session) (pin : Pin.t) :
  pinnedPr s = Some pin ->
  getPrByNumber JSON_parse w (Pin.repo pin) (Pin.number pin) = Ok None ->
  update JSON_parse w cwd s = Ok (showStatus None s).
Proof. intros Hpin Hq. unfold update. rewrite Hpin, Hq. reflexivity. Qed.

(** *** [tryPinFromUrl] *)

Lemma same_pin_false (pinned : option Pin.t) (parsed : Parsed.t) :
  pinned <> Some (Pin.mk (Parsed.repo parsed) (Parsed.number parsed)) ->
  same_pin pinned parsed = false.
Proof.
  intros Hne. unfold same_pin. destruct pinned as [[r n]|]; [|reflexivity].
  cbn [Pin.repo Pin.number].
  destruct (String.eqb r (Parsed.repo parsed)) eqn:Er; [|reflexivity].
  destruct (n =? Parsed.number parsed) eqn:En; [|reflexivity].
  apply String.eqb_eq in Er. apply Z.eqb_eq in En. subst. contradiction.
Qed.

Lemma tryPinFromUrl_pins (w : World) (text : string) (ctx : ExtensionContext)
      (s : Session) (parsed : Parsed.t) :
  parsePrUrl text = Some parsed ->
  pinnedPr s <> Some (Pin.mk (Parsed.repo parsed) (Parsed.number parsed)) ->
  hasActiveBranchPr s = false ->
  exists pr,
    getPrByNumber JSON_parse w (Parsed.repo parsed) (Parsed.number parsed) = Ok pr
    /\ tryPinFromUrl JSON_parse w text ctx s
       = Ok (showStatus pr
               (set_latestCtx (Some ctx)
                  (set_pinnedPr (Some (Pin.mk (Parsed.repo parsed) (Parsed.number parsed))) s))).
Proof.
  intros Hparse Hpin Hactive. unfold tryPinFromUrl.
  rewrite Hparse, (same_pin_false _ _ Hpin), Hactive.
  destruct (getPrByNumber_total w (Parsed.repo parsed) (Parsed.number parsed)) as [pr Hpr].
  exists pr. rewrite Hpr. split; reflexivity.
Qed.

Lemma tryPinFromUrl_ignored (w : World) (text : string) (ctx : ExtensionContext)
      (s : Session) :
  hasActiveBranchPr s = true ->
  tryPinFromUrl JSON_parse w text ctx s = Ok s.
Proof.
  intros Hactive. unfold tryPinFromUrl. rewrite Hactive.
  destruct (parsePrUrl text); [|reflexivity].
  destruct (same_pin (pinnedPr s) t); reflexivity.
Qed.

End SelectorFacts.

Lemma hasActiveBranchPr_true (s : Session) :
  hasActiveBranchPr s = true <-> exists pr, lastPr s = Some pr /\ state pr = VStr "OPEN".
Proof.
  unfold hasActiveBranchPr. split.
  - destruct (lastPr s) as [pr|]; [|discriminate].
    intros H. exists pr. split; [reflexivity | apply strict_eq_str_true, H].
  - intros (pr & -> & ->). reflexivity.
Qed.

Lemma hasActiveBranchPr_false (s : Session) :
  (forall pr, lastPr s = Some pr -> state pr <> VStr "OPEN") ->
  hasActiveBranchPr s = false.
Proof.
  intros H. destruct (hasActiveBranchPr s) eqn:E; [|reflexivity].
  apply hasActiveBranchPr_true in E as (pr & Hpr & Hopen).
  exfalso. exact (H pr Hpr Hopen).
Qed.

(** No handler throws: every backend call is wrapped in its own [try]. *)
Lemma update_total (JSON_parse : string -> Result value) (w : World) (dir : string)
      (s : Session) :
  exists s', update JSON_parse w dir s = Ok s'.
Proof.
  unfold update. destruct (pinnedPr s) as [pin|].
  - destruct (getPrByNumber_total JSON_parse w (Pin.repo pin) (Pin.number pin)) as [pr ->].
    cbn [mbind Result_bind]. destruct pr as [pr|]; [|eauto].
    destruct (getBranch_total w dir) as [b ->]. cbn [mbind Result_bind].
    destruct (negb (no_branch b) && negb (is_HEAD b)); [|eauto].
    rewrite ensureCachedRepo_spec. cbn [mbind Result_bind].
    match goal with
    | |- context [getPrForBranch JSON_parse w dir ?r] =>
        destruct (getPrForBranch_total JSON_parse w dir r) as [bp ->]
    end.
    cbn [mbind Result_bind]. destruct bp as [bp|]; [|eauto].
    destruct (strict_eq_str (state bp) "OPEN"); eauto.
  - destruct (getBranch_total w dir) as [b ->]. cbn [mbind Result_bind].
    destruct (no_branch b || is_HEAD b); [eauto|].
    rewrite ensureCachedRepo_spec. cbn [mbind Result_bind].
    match goal with
    | |- context [getPrForBranch JSON_parse w dir ?r] =>
        destruct (getPrForBranch_total JSON_parse w dir r) as [bp ->]
    end.
    cbn [mbind Result_bind]. eauto.
Qed.

Lemma tryPinFromUrl_total (JSON_parse : string -> Result value) (w : World)
      (txt : string) (ctx : ExtensionContext) (s : Session) :
  exists s', tryPinFromUrl JSON_parse w txt ctx s = Ok s'.
Proof.
  unfold tryPinFromUrl. destruct (parsePrUrl txt) as [parsed|]; [|eauto].
  destruct (same_pin (pinnedPr s) parsed); [eauto|].
  destruct (hasActiveBranchPr s); [eauto|].
  destruct (getPrByNumber_total JSON_parse w (Parsed.repo parsed) (Parsed.number parsed))
    as [pr ->].
  cbn [mbind Result_bind]. eauto.
Qed.

(** What the input handler does when its guard lets the URL through.  On
    an input event (not one the extension itself synthesized) whose text
    contains a parseable pull-request URL, when the parsed repository and
    number differ from the current pin and the last pull request [lastPr],
    the one [hasActiveBranchPr] looks at, is absent or not OPEN, the handler
    sets the pin to the parsed repository and number, queries that pull
    request at once and shows the formatted result (nothing, when the query
    finds no pull request). *)
Theorem input_url_pins_and_shows :
  forall (JSON_parse : string -> Result value) (w : World) (event : InputEvent)
         (ctx : ExtensionContext) (s : Session) (parsed : Parsed.t),
    source event <> "extension" ->
    parsePrUrl (text event) = Some parsed ->
    pinnedPr s <> Some (Pin.mk (Parsed.repo parsed) (Parsed.number parsed)) ->
    (forall pr, lastPr s = Some pr -> state pr <> VStr "OPEN") ->
    exists (pr : option PrInfo) (s' : Session),
      getPrByNumber JSON_parse w (Parsed.repo parsed) (Parsed.number parsed) = Ok pr
      /\ on_input JSON_parse w event ctx s = Ok s'
      /\ pinnedPr s' = Some (Pin.mk (Parsed.repo parsed) (Parsed.number parsed))
      /\ lastPr s' = pr
      /\ displayed s' = formatStatus <$> pr.
Proof.
  intros JSON_parse w event ctx s parsed Hsrc Hparse Hpin Hopen.
  unfold on_input.
  destruct (String.eqb (source event) "extension") eqn:Esrc.
  { apply String.eqb_eq in Esrc. contradiction. }
  destruct (tryPinFromUrl_pins JSON_parse w (text event) ctx
              (set_latestCtx (Some ctx) s) parsed Hparse Hpin
              (hasActiveBranchPr_false _ Hopen)) as (pr & Hquery & Hrun).
  exists pr. eexists. split; [exact Hquery|]. split; [exact Hrun|].
  split; [reflexivity|]. split; [reflexivity|]. apply displayed_showStatus.
Qed.

(** C1. The guard of [tryPinFromUrl] does not look at the branch:
    [hasActiveBranchPr], documented as "true when the current branch has an
    open PR", tests [lastPr], and [showStatus] stores a pinned pull request
    there as well.  So the claim fails once an open pull request is pinned.
    In a directory that is no repository (no branch, hence no pull request
    of the branch), a first mention pins the open pull request 7 of [o/r];
    a second input then mentions pull request 8, which is not the pin and
    which the backend resolves; and the handler leaves the pin and the
    status with 7, where the claim has it pin 8 and show 8 at once. *)
Theorem input_url_ignored_over_open_pin :
  exists s1 s2 : Session,
    on_input demo_parse w_by_number mention_7 demo_ctx initial = Ok s1
    /\ pinnedPr s1 = Some pin_7
    /\ source mention_8 <> "extension"
    /\ parsePrUrl (text mention_8)
       = Some (Parsed.mk "https://github.com/o/r/pull/8" "o/r" 8)
    /\ pinnedPr s1 <> Some (Pin.mk "o/r" 8)
    /\ getBranch w_by_number (cwd demo_ctx) = Ok None
    /\ getPrForBranch demo_parse w_by_number (cwd demo_ctx) (cachedRepo s1) = Ok None
    /\ getPrByNumber demo_parse w_by_number "o/r" 8 = Ok (Some (demo_info 8))
    /\ on_input demo_parse w_by_number mention_8 demo_ctx s1 = Ok s2
    /\ pinnedPr s2 = Some pin_7
    /\ lastPr s2 = Some (demo_info 7)
    /\ displayed s2 = Some (formatStatus (demo_info 7))
    /\ displayed s2 <> Some (formatStatus (demo_info 8)).
Proof.
  eexists. eexists.
  split; [vm_compute; reflexivity|].
  split; [reflexivity|].
  split; [discriminate|].
  split; [vm_compute; reflexivity|].
  split; [discriminate|].
  split; [reflexivity|].
  split; [reflexivity|].
  split; [vm_compute; reflexivity|].
  split; [vm_compute; reflexivity|].
  split; [reflexivity|].
  split; [reflexivity|].
  split; [vm_compute; reflexivity|].
  vm_compute. discriminate.
Qed.

(** C4. An input event that carries a parseable pull-request URL while the
    selected pull request has state OPEN changes neither the pin, nor the
    last pull request, nor the branch and repository the session remembers,
    nor anything on the status bar. *)
Theorem input_url_ignored_while_open :
  forall (JSON_parse : string -> Result value) (w : World) (event : InputEvent)
         (ctx : ExtensionContext) (s : Session) (parsed : Parsed.t) (pr : PrInfo),
    parsePrUrl (text event) = Some parsed ->
    lastPr s = Some pr ->
    state pr = VStr "OPEN" ->
    exists s' : Session,
      on_input JSON_parse w event ctx s = Ok s'
      /\ pinnedPr s' = pinnedPr s
      /\ lastPr s' = lastPr s
      /\ lastBranch s' = lastBranch s
      /\ cachedRepo s' = cachedRepo s
      /\ statusBar s' = statusBar s.
Proof.
  intros JSON_parse w event ctx s parsed pr _ Hlast Hopen.
  assert (Hactive : hasActiveBranchPr s = true).
  { apply hasActiveBranchPr_true. eauto. }
  unfold on_input. destruct (String.eqb (source event) "extension").
  - exists s. repeat split; reflexivity.
  - rewrite tryPinFromUrl_ignored by exact Hactive.
    eexists. split; [reflexivity|]. repeat split; reflexivity.
Qed.

(** C2. On a poll tick of a pinned session, if the pinned query resolves,
    the current branch has a name other than ["HEAD"], and the branch query
    finds a pull request whose state is OPEN, then after the tick the pin is
    cleared and the status bar shows the branch's pull request. *)
Theorem tick_drops_pin_for_open_branch_pr :
  forall (JSON_parse : string -> Result value) (w : World) (dir : string) (s : Session)
         (pin : Pin.t) (pinned : PrInfo) (branch : string) (branchPr : PrInfo),
    pinnedPr s = Some pin ->
    getPrByNumber JSON_parse w (Pin.repo pin) (Pin.number pin) = Ok (Some pinned) ->
    getBranch w dir = Ok (Some branch) ->
    branch <> "" ->
    branch <> "HEAD" ->
    getPrForBranch JSON_parse w dir (repoFor JSON_parse w dir s) = Ok (Some branchPr) ->
    state branchPr = VStr "OPEN" ->
    exists s' : Session,
      update JSON_parse w dir s = Ok s'
      /\ pinnedPr s' = None
      /\ lastPr s' = Some branchPr
      /\ displayed s' = Some (formatStatus branchPr).
Proof.
  intros JSON_parse w dir s pin pinned branch branchPr
         Hpin Hquery Hbranch Hname Hhead Hbpr Hopen.
  unfold update. rewrite Hpin, Hquery. cbn [mbind Result_bind].
  rewrite Hbranch. cbn [mbind Result_bind no_branch is_HEAD].
  apply String.eqb_neq in Hname, Hhead. rewrite Hname, Hhead. cbn [negb andb].
  rewrite ensureCachedRepo_spec. cbn [mbind Result_bind].
  match goal with
  | |- context [getPrForBranch JSON_parse w dir (cachedRepo (set_cachedRepo ?r ?t))] =>
      change (cachedRepo (set_cachedRepo r t)) with r;
      replace r with (repoFor JSON_parse w dir s)
        by (destruct (same_branch (Some branch) (lastBranch (showStatus (Some pinned) s)));
            reflexivity)
  end.
  rewrite Hbpr. cbn [mbind Result_bind]. rewrite Hopen.
  cbn [strict_eq_str String.eqb Ascii.eqb Bool.eqb].
  eexists. split; [reflexivity|].
  split; [reflexivity|]. split; [reflexivity|].
  rewrite displayed_showStatus. reflexivity.
Qed.

Lemma ticks_pinned_absent (JSON_parse : string -> Result value) (ws : list World)
      (dir : string) (s : Session) (pin : Pin.t) :
  pinnedPr s = Some pin ->
  Forall (fun w => getPrByNumber JSON_parse w (Pin.repo pin) (Pin.number pin) = Ok None) ws ->
  ticks JSON_parse ws dir (showStatus None s) = Ok (showStatus None s).
Proof.
  intros Hpin Hws. induction Hws as [|w ws Hw _ IH]; [reflexivity|].
  cbn [ticks].
  rewrite (update_pinned_absent JSON_parse w dir (showStatus None s) pin Hpin Hw).
  cbn [mbind Result_bind]. rewrite showStatus_None_idem. exact IH.
Qed.

(** C10. On a poll tick of a pinned session whose pinned query finds
    nothing, [update] clears the status and the last pull request and leaves
    the pin (and the remembered branch and repository) as it was.  The
    session stays pinned: further ticks whose pinned query finds nothing
    leave it there, whatever the branch queries would answer, and a later
    tick whose pinned query resolves shows the pinned pull request again. *)
Theorem tick_pinned_absent_keeps_pin :
  forall (JSON_parse : string -> Result value) (w : World) (dir : string) (s : Session)
         (pin : Pin.t),
    pinnedPr s = Some pin ->
    getPrByNumber JSON_parse w (Pin.repo pin) (Pin.number pin) = Ok None ->
    exists s' : Session,
      update JSON_parse w dir s = Ok s'
      /\ pinnedPr s' = Some pin
      /\ lastPr s' = None
      /\ displayed s' = None
      /\ lastBranch s' = lastBranch s
      /\ cachedRepo s' = cachedRepo s
      /\ (forall ws : list World,
            Forall (fun w' => getPrByNumber JSON_parse w' (Pin.repo pin) (Pin.number pin)
                              = Ok None) ws ->
            ticks JSON_parse ws dir s' = Ok s')
      /\ (forall (w' : World) (p : PrInfo),
            getPrByNumber JSON_parse w' (Pin.repo pin) (Pin.number pin) = Ok (Some p) ->
            getBranch w' dir = Ok None ->
            exists s'' : Session,
              update JSON_parse w' dir s' = Ok s''
              /\ pinnedPr s'' = Some pin
              /\ lastPr s'' = Some p
              /\ displayed s'' = Some (formatStatus p)).
Proof.
  intros JSON_parse w dir s pin Hpin Hq.
  exists (showStatus None s).
  split; [apply (update_pinned_absent JSON_parse w dir s pin Hpin Hq)|].
  split; [exact Hpin|]. split; [reflexivity|].
  split; [apply displayed_showStatus|].
  split; [reflexivity|]. split; [reflexivity|].
  split.
  - intros ws Hws. apply (ticks_pinned_absent JSON_parse ws dir s pin Hpin Hws).
  - intros w' p Hp Hb. unfold update.
    change (pinnedPr (showStatus None s)) with (pinnedPr s).
    rewrite Hpin, Hp. cbn [mbind Result_bind]. rewrite Hb.
    cbn [mbind Result_bind no_branch is_HEAD negb andb].
    eexists. split; [reflexivity|].
    split; [exact Hpin|]. split; [reflexivity|].
    rewrite displayed_showStatus. reflexivity.
Qed.

(** ** Worked sessions *)

Example getPrByNumber_demo :
  getPrByNumber demo_parse w_by_number "o/r" 7 = Ok (Some (demo_info 7)).
Proof. vm_compute. reflexivity. Qed.

Example getPrForBranch_demo :
  getPrForBranch demo_parse w_on_branch "/work" None = Ok (Some (demo_info 9)).
Proof. vm_compute. reflexivity. Qed.

(** The guard of [tryPinFromUrl] looks at [lastPr], which also holds a
    pinned pull request: once an open pull request is pinned and shown, the
    mention of another URL does not move the pin. *)
Example pinned_open_pr_keeps_later_mentions_out :
  exists s1 s2 : Session,
    on_input demo_parse w_by_number mention_7 demo_ctx initial = Ok s1
    /\ pinnedPr s1 = Some pin_7
    /\ on_input demo_parse w_by_number mention_8 demo_ctx s1 = Ok s2
    /\ pinnedPr s2 = Some pin_7
    /\ displayed s2 = Some (formatStatus (demo_info 7)).
Proof.
  eexists. eexists.
  split; [vm_compute; reflexivity|].
  split; [reflexivity|].
  split; [vm_compute; reflexivity|].
  split; [reflexivity|]. vm_compute. reflexivity.
Qed.

(** * The theorems at concrete inputs *)

Lemma parseChecks_conclusion_priority_witness :
  parseChecks_loop
    [Check.to_value (Check.mk (Some "success") (Some "IN_PROGRESS") None)] zero_checks
  = Ok (mkCheckStatus 1 1 0 0)
  /\ parseChecks_loop
       [Check.to_value (Check.mk (Some "Timed_Out") (Some "queued") (Some "lint"))] zero_checks
     = Ok (mkCheckStatus 1 0 1 0)
  /\ parseChecks_loop
       [Check.to_value (Check.mk (Some "stale") (Some "completed") None)] zero_checks
     = Ok (mkCheckStatus 1 1 0 0).
Proof.
  split; [|split].
  - apply (proj1 (parseChecks_conclusion_priority
                    (Check.mk (Some "success") (Some "IN_PROGRESS") None) [] zero_checks)).
    reflexivity.
  - apply (proj1 (proj2 (parseChecks_conclusion_priority
                    (Check.mk (Some "Timed_Out") (Some "queued") (Some "lint")) []
                    zero_checks))).
    reflexivity.
  - apply (proj2 (proj2 (parseChecks_conclusion_priority
                    (Check.mk (Some "stale") (Some "completed") None) [] zero_checks)));
      reflexivity.
Defined.

Lemma parsePrUrl_url_in_prose_witness :
  parsePrUrl ("see " +:+ URL_42 +:+ " please") = Some (Parsed.mk URL_42 "owner/repo" 42)
  /\ parsePrUrl "https://github.com/owner/repo/issues/42" = None.
Proof.
  apply (parsePrUrl_url_in_prose "see " " please").
  - intros i Hi. simpl in Hi.
    do 4 (destruct i as [|i]; [reflexivity|]). lia.
  - reflexivity.
Defined.

Lemma formatStatus_state_marker_witness :
  starts_with "🟢 PR #"
    (formatStatus (mkPrInfo (VNum 3) (VStr "wip") (VStr "https://github.com/o/r/pull/3")
                            (VStr "DRAFT") zero_checks 0)) = true.
Proof.
  apply (proj1 (formatStatus_state_marker
                  (mkPrInfo (VNum 3) (VStr "wip") (VStr "https://github.com/o/r/pull/3")
                            (VStr "DRAFT") zero_checks 0))); discriminate.
Defined.

Lemma getPrForBranch_never_raises_witness :
  getPrForBranch demo_parse w_on_branch "/work" (Some (mkRepoInfo (VStr "o") (VStr "r")))
  = Ok (Some (demo_info 9))
  /\ getPrForBranch demo_parse w_offline "/work" None = Ok None.
Proof.
  split.
  - destruct (getPrForBranch_never_raises demo_parse w_on_branch "/work"
                (Some (mkRepoInfo (VStr "o") (VStr "r")))) as (_ & _ & H).
    destruct (H "<pr 9>" eq_refl) as (_ & _ & Hparsed).
    destruct (Hparsed (demo_response 9 "OPEN") eq_refl) as (_ & Hpartial).
    apply (Hpartial (mkCheckStatus 1 1 0 0) (mkRepoInfo (VStr "o") (VStr "r")));
      try reflexivity.
    + discriminate.
    + left. exists ExecError. reflexivity.
  - destruct (getPrForBranch_never_raises demo_parse w_offline "/work" None)
      as (_ & H & _).
    apply H. exists ExecError. reflexivity.
Defined.

Lemma input_url_pins_and_shows_witness :
  exists (pr : option PrInfo) (s' : Session),
    getPrByNumber demo_parse w_by_number "o/r" 7 = Ok pr
    /\ on_input demo_parse w_by_number mention_7 demo_ctx initial = Ok s'
    /\ pinnedPr s' = Some pin_7
    /\ lastPr s' = pr
    /\ displayed s' = formatStatus <$> pr.
Proof.
  apply (input_url_pins_and_shows demo_parse w_by_number mention_7 demo_ctx initial
           (Parsed.mk "https://github.com/o/r/pull/7" "o/r" 7)).
  - discriminate.
  - reflexivity.
  - discriminate.
  - intros pr H. discriminate H.
Defined.

Lemma input_url_ignored_while_open_witness :
  exists s' : Session,
    on_input demo_parse w_by_number mention_8 demo_ctx showing_session = Ok s'
    /\ pinnedPr s' = pinnedPr showing_session
    /\ lastPr s' = lastPr showing_session
    /\ lastBranch s' = lastBranch showing_session
    /\ cachedRepo s' = cachedRepo showing_session
    /\ statusBar s' = statusBar showing_session.
Proof.
  apply (input_url_ignored_while_open demo_parse w_by_number mention_8 demo_ctx
           showing_session (Parsed.mk "https://github.com/o/r/pull/8" "o/r" 8)
           (demo_info 7)); reflexivity.
Defined.

Lemma tick_drops_pin_for_open_branch_pr_witness :
  exists s' : Session,
    update demo_parse w_on_branch "/work" pinned_session = Ok s'
    /\ pinnedPr s' = None
    /\ lastPr s' = Some (demo_info 9)
    /\ displayed s' = Some (formatStatus (demo_info 9)).
Proof.
  apply (tick_drops_pin_for_open_branch_pr demo_parse w_on_branch "/work" pinned_session
           pin_7 (demo_info 7) "feature" (demo_info 9)).
  - reflexivity.
  - vm_compute. reflexivity.
  - reflexivity.
  - discriminate.
  - discriminate.
  - vm_compute. reflexivity.
  - reflexivity.
Defined.

Lemma tick_pinned_absent_keeps_pin_witness :
  exists s' : Session,
    update demo_parse w_offline "/work" pinned_session = Ok s'
    /\ pinnedPr s' = Some pin_7
    /\ lastPr s' = None
    /\ displayed s' = None.
Proof.
  destruct (tick_pinned_absent_keeps_pin demo_parse w_offline "/work" pinned_session pin_7)
    as (s' & Hrun & Hpin & Hlast & Hshown & _); [reflexivity | reflexivity |].
  exists s'. repeat split; assumption.
Defined.

(** * Further properties of the code *)

(** ** The aggregator on arbitrary JSON *)

Lemma count_check_add (co st : string) (acc : CheckStatus) :
  count_check co st acc = tally_add acc (count_check co st zero_checks).
Proof.
  destruct acc as [t p f q].
  unfold count_check, tally_add, zero_checks, incr_pass, incr_fail, incr_pending, incr_total.
  destruct (is_pass_conclusion co), (is_fail_conclusion co), (is_pending_status st),
    (String.eqb st "COMPLETED"); cbn [total pass fail pending]; f_equal; lia.
Qed.

Lemma tally_add_zero_r (a : CheckStatus) : tally_add a zero_checks = a.
Proof. destruct a. unfold tally_add. cbn. f_equal; lia. Qed.

Lemma tally_add_zero_l (a : CheckStatus) : tally_add zero_checks a = a.
Proof. destruct a. unfold tally_add. cbn. f_equal; lia. Qed.

Lemma tally_add_assoc (a b c : CheckStatus) :
  tally_add (tally_add a b) c = tally_add a (tally_add b c).
Proof. unfold tally_add. cbn. f_equal; lia. Qed.

Lemma tally_add_comm (a b : CheckStatus) : tally_add a b = tally_add b a.
Proof. unfold tally_add. f_equal; lia. Qed.

(** The loop only ever adds to the tally it starts from. *)
Lemma parseChecks_loop_shift (l : list value) (acc : CheckStatus) :
  parseChecks_loop l acc = (t ← parseChecks_loop l zero_checks; Ok (tally_add acc t)).
Proof.
  revert acc. induction l as [|c l IH]; intros acc.
  - cbn. rewrite tally_add_zero_r. reflexivity.
  - cbn [parseChecks_loop].
    destruct (get_prop c "conclusion") as [v1|e]; [|reflexivity].
    cbn [mbind Result_bind].
    destruct (call_toUpperCase (js_or v1 (VStr ""))) as [co|e]; [|reflexivity].
    cbn [mbind Result_bind].
    destruct (get_prop c "status") as [v2|e]; [|reflexivity].
    cbn [mbind Result_bind].
    destruct (call_toUpperCase (js_or v2 (VStr ""))) as [st|e]; [|reflexivity].
    cbn [mbind Result_bind].
    destruct (get_prop c "name") as [v3|e]; [|reflexivity].
    cbn [mbind Result_bind].
    destruct (negb (truthy (js_or v3 (VStr ""))) && String.eqb co "" && String.eqb st "").
    + apply IH.
    + rewrite (IH (count_check co st acc)), (IH (count_check co st zero_checks)).
      destruct (parseChecks_loop l zero_checks) as [t|e]; [|reflexivity].
      cbn [mbind Result_bind]. rewrite (count_check_add co st acc), tally_add_assoc.
      reflexivity.
Qed.

Lemma parseChecks_loop_app (l1 l2 : list value) (acc : CheckStatus) :
  parseChecks_loop (l1 ++ l2) acc = (t ← parseChecks_loop l1 acc; parseChecks_loop l2 t).
Proof.
  revert acc. induction l1 as [|c l1 IH]; intros acc; [reflexivity|].
  rewrite <- app_comm_cons. cbn [parseChecks_loop].
  destruct (get_prop c "conclusion") as [v1|e]; [|reflexivity].
  cbn [mbind Result_bind].
  destruct (call_toUpperCase (js_or v1 (VStr ""))) as [co|e]; [|reflexivity].
  cbn [mbind Result_bind].
  destruct (get_prop c "status") as [v2|e]; [|reflexivity].
  cbn [mbind Result_bind].
  destruct (call_toUpperCase (js_or v2 (VStr ""))) as [st|e]; [|reflexivity].
  cbn [mbind Result_bind].
  destruct (get_prop c "name") as [v3|e]; [|reflexivity].
  cbn [mbind Result_bind].
  destruct (negb (truthy (js_or v3 (VStr ""))) && String.eqb co "" && String.eqb st "");
    apply IH.
Qed.

(** The only exception the loop raises is the TypeError of a property read
    on [null] or of [toUpperCase] on a value that is not a string. *)
Lemma parseChecks_loop_throws (l : list value) (acc : CheckStatus) (e : exn) :
  parseChecks_loop l acc = Throw e -> e = TypeError.
Proof.
  revert acc. induction l as [|c l IH]; intros acc H; [discriminate H|].
  cbn [parseChecks_loop] in H.
  destruct c; cbn in H; try (injection H as <-; reflexivity);
    repeat match type of H with
      | context [call_toUpperCase ?v] =>
          let E := fresh "E" in
          destruct (call_toUpperCase v) as [?|?] eqn:E;
          [| destruct v; cbn in E; try discriminate E; injection E as <-;
             cbn in H; injection H as <-; reflexivity ];
          cbn [mbind Result_bind] in H
      | context [if ?b then _ else _] => destruct b
      end; eapply IH; exact H.
Qed.

(** X1. The tally of a concatenated rollup is the component-wise sum of the
    tallies of its parts, and a part that makes [parseChecks] throw makes
    the whole throw. *)
Theorem parseChecks_app :
  forall l1 l2 : list value,
    parseChecks (l1 ++ l2)
    = (t1 ← parseChecks l1; t2 ← parseChecks l2; Ok (tally_add t1 t2)).
Proof.
  intros l1 l2. unfold parseChecks. fold zero_checks.
  rewrite parseChecks_loop_app.
  destruct (parseChecks_loop l1 zero_checks) as [t1|e]; [|reflexivity].
  cbn [mbind Result_bind]. apply parseChecks_loop_shift.
Qed.

(** One turn of the loop, read in a hypothesis: the cases in which the turn
    throws are closed, the others are left with the recursive call. *)
Ltac loop_turn H c :=
  cbn [parseChecks_loop] in H;
  destruct (get_prop c "conclusion") as [?v|?e]; [|discriminate H];
  cbn [mbind Result_bind] in H;
  match type of H with
  | context [call_toUpperCase ?v] =>
      destruct (call_toUpperCase v) as [?co|?e]; [|discriminate H]
  end;
  cbn [mbind Result_bind] in H;
  destruct (get_prop c "status") as [?v|?e]; [|discriminate H];
  cbn [mbind Result_bind] in H;
  match type of H with
  | context [call_toUpperCase ?v] =>
      destruct (call_toUpperCase v) as [?st|?e]; [|discriminate H]
  end;
  cbn [mbind Result_bind] in H;
  destruct (get_prop c "name") as [?v|?e]; [|discriminate H];
  cbn [mbind Result_bind] in H;
  match type of H with
  | context [if ?b then _ else _] => destruct b
  end.

Lemma count_check_grows (co st : string) (acc : CheckStatus) :
  pass acc <= pass (count_check co st acc)
  /\ fail acc <= fail (count_check co st acc)
  /\ pending acc <= pending (count_check co st acc).
Proof.
  unfold count_check.
  destruct (is_pass_conclusion co), (is_fail_conclusion co), (is_pending_status st),
    (String.eqb st "COMPLETED"); cbn; lia.
Qed.

Lemma parseChecks_loop_bounds (l : list value) (acc t : CheckStatus) :
  parseChecks_loop l acc = Ok t ->
  pass acc <= pass t /\ fail acc <= fail t /\ pending acc <= pending t
  /\ total acc <= total t <= total acc + Z.of_nat (length l).
Proof.
  revert acc. induction l as [|c l IH]; intros acc H.
  - injection H as <-. cbn. lia.
  - loop_turn H c; apply IH in H.
    + cbn [length]. lia.
    + pose proof (count_check_grows co st acc). rewrite count_check_total in H.
      cbn [length]. lia.
Qed.

(** X2. On arbitrary parsed JSON, whenever [parseChecks] returns, every
    bucket is non-negative, the buckets add up to the total, and the total
    is at most the number of records. *)
Theorem parseChecks_bounds :
  forall (l : list value) (t : CheckStatus),
    parseChecks l = Ok t ->
    0 <= pass t /\ 0 <= fail t /\ 0 <= pending t
    /\ pass t + fail t + pending t = total t
    /\ total t <= Z.of_nat (length l).
Proof.
  intros l t H. pose proof (parseChecks_buckets l t H) as Hsum.
  apply parseChecks_loop_bounds in H. cbn in H. lia.
Qed.

Lemma parseChecks_loop_swap (x y : value) (l : list value) (acc : CheckStatus) :
  parseChecks_loop (x :: y :: l) acc = parseChecks_loop (y :: x :: l) acc.
Proof.
  change (x :: y :: l) with ([x] ++ [y] ++ l).
  change (y :: x :: l) with ([y] ++ [x] ++ l).
  rewrite !parseChecks_loop_app.
  rewrite (parseChecks_loop_shift [x] acc), (parseChecks_loop_shift [y] acc).
  destruct (parseChecks_loop [x] zero_checks) as [dx|ex] eqn:Ex;
    destruct (parseChecks_loop [y] zero_checks) as [dy|ey] eqn:Ey;
    cbn [mbind Result_bind]; rewrite ?parseChecks_loop_app.
  - rewrite (parseChecks_loop_shift [y]), (parseChecks_loop_shift [x]), Ex, Ey.
    cbn [mbind Result_bind].
    rewrite !tally_add_assoc, (tally_add_comm dx dy). reflexivity.
  - rewrite (parseChecks_loop_shift [y]), Ey. reflexivity.
  - rewrite (parseChecks_loop_shift [x]), Ex. reflexivity.
  - apply parseChecks_loop_throws in Ex, Ey. subst. reflexivity.
Qed.

Lemma parseChecks_loop_perm (l1 l2 : list value) :
  Permutation l1 l2 -> forall acc, parseChecks_loop l1 acc = parseChecks_loop l2 acc.
Proof.
  induction 1 as [|x l1 l2 _ IH|x y l|l1 l2 l3 _ IH1 _ IH2]; intros acc.
  - reflexivity.
  - change (x :: l1) with ([x] ++ l1). change (x :: l2) with ([x] ++ l2).
    rewrite !parseChecks_loop_app.
    destruct (parseChecks_loop [x] acc) as [t|e]; [apply IH | reflexivity].
  - apply parseChecks_loop_swap.
  - rewrite IH1. apply IH2.
Qed.

(** X3. The tally does not depend on the order of the records: two rollups
    that are permutations of each other get the same answer from
    [parseChecks], the same tally or the same TypeError. *)
Theorem parseChecks_order_independent :
  forall l1 l2 : list value,
    Permutation l1 l2 -> parseChecks l1 = parseChecks l2.
Proof. intros l1 l2 H. apply parseChecks_loop_perm, H. Qed.

Lemma parseChecks_loop_rejects (c : value) (l : list value) (acc : CheckStatus) (e : exn) :
  In c l -> parseChecks_loop [c] zero_checks = Throw e ->
  parseChecks_loop l acc = Throw TypeError.
Proof.
  intros Hin Hc. apply in_split in Hin as (l1 & l2 & ->).
  change (c :: l2) with ([c] ++ l2). rewrite !parseChecks_loop_app.
  destruct (parseChecks_loop l1 acc) as [t|e1] eqn:E1; cbn [mbind Result_bind].
  - rewrite parseChecks_loop_app, (parseChecks_loop_shift [c] t), Hc.
    cbn [mbind Result_bind].
    apply parseChecks_loop_throws in Hc. subst. reflexivity.
  - apply parseChecks_loop_throws in E1. subst. reflexivity.
Qed.

(** X4. One malformed record spoils the whole query: when the check rollup
    of the answer holds a [null], or a record whose conclusion is a non-zero
    number, [parseChecks] throws and [getPrForBranch] returns absent, even
    though the pull request itself was found. *)
Theorem getPrForBranch_malformed_rollup :
  forall (JSON_parse : string -> Result value) (w : World) (dir out : string)
         (repo : option RepoInfo) (pr c : value) (items : list value),
    execSync w ("gh pr view " +:+ PR_VIEW_FIELDS) (Some dir) = Ok out ->
    JSON_parse (trim out) = Ok pr ->
    get_prop pr "statusCheckRollup" = Ok (VArr items) ->
    In c items ->
    (c = VNull \/ exists z, z <> 0 /\ get_prop c "conclusion" = Ok (VNum z)) ->
    parseChecks items = Throw TypeError
    /\ getPrForBranch JSON_parse w dir repo = Ok None.
Proof.
  intros JSON_parse w dir out repo pr c items Hout Hpr Hroll Hin Hbad.
  assert (Hthrow : parseChecks items = Throw TypeError).
  { unfold parseChecks. apply (parseChecks_loop_rejects c items _ TypeError Hin).
    destruct Hbad as [-> | (z & Hz & Hc)]; [reflexivity|].
    cbn [parseChecks_loop]. rewrite Hc. cbn [mbind Result_bind].
    unfold js_or. cbn [truthy]. apply Z.eqb_neq in Hz. rewrite Hz. reflexivity. }
  split; [exact Hthrow|].
  unfold getPrForBranch. rewrite Hout. cbn [mbind Result_bind].
  destruct (String.eqb (trim out) ""); [reflexivity|].
  rewrite Hpr. cbn [mbind Result_bind].
  destruct (get_prop pr "number") as [n|e]; [|reflexivity]. cbn [mbind Result_bind].
  destruct (truthy n); [|reflexivity]. cbn [negb].
  destruct (get_prop pr "url") as [u|e]; [|reflexivity]. cbn [mbind Result_bind].
  destruct (truthy u); [|reflexivity]. cbn [negb].
  unfold rollupChecks. rewrite Hroll. cbn [mbind Result_bind]. rewrite Hthrow. reflexivity.
Qed.

(** ** countUnresolvedThreads *)

Lemma countUnresolvedThreads_range (l : list value) (n : Z) :
  countUnresolvedThreads l = Ok n -> 0 <= n <= Z.of_nat (length l).
Proof.
  revert n. induction l as [|t l IH]; intros n H.
  - injection H as <-. cbn. lia.
  - cbn [countUnresolvedThreads] in H.
    destruct (get_prop t "isResolved") as [r|e]; [|discriminate H].
    cbn [mbind Result_bind] in H.
    destruct (countUnresolvedThreads l) as [m|e]; [|discriminate H].
    cbn [mbind Result_bind] in H. specialize (IH m eq_refl).
    injection H as <-. cbn [length]. destruct (negb (truthy r)); lia.
Qed.

Lemma countUnresolvedThreads_typed (bs : list bool) :
  countUnresolvedThreads (map thread_value bs)
  = Ok (Z.of_nat (length (filter (fun b => b = false) bs))).
Proof.
  induction bs as [|b bs IH]; [reflexivity|].
  rewrite map_cons. cbn [countUnresolvedThreads thread_value get_prop lookup_field
                         String.eqb Ascii.eqb Bool.eqb mbind Result_bind].
  rewrite IH. cbn [mbind Result_bind truthy]. rewrite filter_cons.
  destruct b; cbn [negb].
  - rewrite decide_False by discriminate. reflexivity.
  - rewrite decide_True by reflexivity. cbn [length]. f_equal. lia.
Qed.

(** X5. On well-formed threads [countUnresolvedThreads] is the number of
    threads whose [isResolved] is false; on arbitrary JSON, whenever it
    returns, the count lies between 0 and the number of threads. *)
Theorem countUnresolvedThreads_counts :
  (forall bs : list bool,
     countUnresolvedThreads (map thread_value bs)
     = Ok (Z.of_nat (length (filter (fun b => b = false) bs))))
  /\ (forall (l : list value) (n : Z),
        countUnresolvedThreads l = Ok n -> 0 <= n <= Z.of_nat (length l)).
Proof. split; [apply countUnresolvedThreads_typed | apply countUnresolvedThreads_range]. Qed.

(** ** The URL parser, in general *)

Lemma strip_prefix_Some (p s s' : string) :
  strip_prefix p s = Some s' -> s = p +:+ s'.
Proof.
  revert s. induction p as [|a p IH]; intros s H.
  - injection H as <-. reflexivity.
  - destruct s as [|b s]; [discriminate H|]. cbn [strip_prefix] in H.
    destruct (Ascii.eqb a b) eqn:E; [|discriminate H].
    apply Ascii.eqb_eq in E. subst b. rewrite str_app_cons. f_equal. apply IH, H.
Qed.

Lemma try_down_Some {A : Type} (n : nat) (s : string) (k : string -> option A) (x : A) :
  try_down n s k = Some x ->
  exists j : nat, (1 <= j <= n)%nat /\ k (str_drop j s) = Some x.
Proof.
  induction n as [|m IH]; intros H; [discriminate H|].
  cbn [try_down] in H. destruct (k (str_drop (S m) s)) as [y|] eqn:E.
  - injection H as <-. exists (S m). split; [lia | exact E].
  - destruct (IH H) as (j & Hj & Hk). exists j. split; [lia | exact Hk].
Qed.

(** The first [j] characters of a run of the class. *)
Lemma run_prefix (cls : ascii -> bool) (j : nat) (s : string) :
  (j <= run_length cls s)%nat ->
  s = str_take j s +:+ str_drop j s
  /\ str_forall cls (str_take j s) = true
  /\ String.length (str_take j s) = j.
Proof.
  revert s. induction j as [|j IH]; intros s Hj.
  - repeat split.
  - destruct s as [|c s]; [cbn in Hj; lia|]. cbn [run_length] in Hj.
    destruct (cls c) eqn:Ec; [|lia].
    destruct (IH s ltac:(lia)) as (Hs & Hall & Hlen).
    cbn [str_take str_drop str_forall String.length]. rewrite str_app_cons, Ec, Hall, Hlen.
    rewrite <- Hs. repeat split.
Qed.

Lemma run_rest (cls : ascii -> bool) (s : string) :
  head_in cls (str_drop (run_length cls s) s) = false.
Proof.
  induction s as [|c s IH]; [reflexivity|].
  cbn [run_length]. destruct (cls c) eqn:Ec; [exact IH|]. cbn. exact Ec.
Qed.

Lemma str_nonempty_length (s : string) (j : nat) :
  String.length s = j -> (1 <= j)%nat -> s <> "".
Proof. intros H Hj ->. cbn in H. lia. Qed.

(** What a match of the pattern at the start of a text looks like. *)
Lemma match_here_PR_URL_inv (s m : string) (caps : captures) :
  match_here PR_URL_RE s = Some (m, caps) ->
  exists owner repo digits post : string,
    s = pr_url owner repo digits +:+ post
    /\ m = pr_url owner repo digits
    /\ caps = [(2%nat, digits); (1%nat, owner +:+ "/" +:+ repo)]
    /\ owner <> "" /\ str_forall not_slash owner = true
    /\ repo <> "" /\ str_forall not_slash repo = true
    /\ digits <> "" /\ str_forall is_digit digits = true
    /\ head_in is_digit post = false.
Proof.
  unfold match_here, PR_URL_RE. cbn [rmatch]. intros H.
  destruct (strip_prefix "https://github.com/" s) as [s1|] eqn:E0; [|discriminate H].
  apply strip_prefix_Some in E0.
  apply try_down_Some in H as (j1 & Hj1 & H).
  destruct (strip_prefix "/" (str_drop j1 s1)) as [s3|] eqn:E1; [|discriminate H].
  apply strip_prefix_Some in E1.
  apply try_down_Some in H as (j2 & Hj2 & H).
  destruct (strip_prefix "/pull/" (str_drop j2 s3)) as [s5|] eqn:E2; [|discriminate H].
  apply strip_prefix_Some in E2.
  destruct (run_length is_digit s5) as [|n] eqn:En; [discriminate H|].
  cbn [try_down] in H. rewrite <- En in H.
  destruct (run_prefix not_slash j1 s1 ltac:(lia)) as (Hs1 & Ho & Hlo).
  destruct (run_prefix not_slash j2 s3 ltac:(lia)) as (Hs3 & Hr & Hlr).
  destruct (run_prefix is_digit (run_length is_digit s5) s5 ltac:(lia)) as (Hs5 & Hd & Hld).
  pose proof (run_rest is_digit s5) as Hpost.
  set (owner := str_take j1 s1) in *.
  set (repo := str_take j2 s3) in *.
  set (digits := str_take (run_length is_digit s5) s5) in *.
  set (post := str_drop (run_length is_digit s5) s5) in *.
  assert (Hs1' : s1 = (owner +:+ "/" +:+ repo) +:+ "/pull/" +:+ digits +:+ post).
  { rewrite Hs1 at 1. rewrite E1, Hs3 at 1. rewrite E2, Hs5 at 1.
    rewrite !str_app_assoc. reflexivity. }
  assert (Hs : s = pr_url owner repo digits +:+ post).
  { rewrite E0, Hs1'. unfold pr_url. rewrite !str_app_assoc. reflexivity. }
  assert (Hc2 : consumed s5 post = digits).
  { rewrite Hs5 at 1. apply consumed_app. }
  assert (Hc1 : consumed s1 (str_drop j2 s3) = owner +:+ "/" +:+ repo).
  { rewrite Hs1' at 1. rewrite E2, Hs5 at 1. apply consumed_app. }
  assert (Hc0 : consumed s post = pr_url owner repo digits).
  { rewrite Hs at 1. apply consumed_app. }
  rewrite Hc0, Hc1, Hc2 in H. injection H as <- <-.
  exists owner, repo, digits, post.
  split; [exact Hs|]. split; [reflexivity|]. split; [reflexivity|].
  split; [apply (str_nonempty_length _ j1 Hlo); lia|]. split; [exact Ho|].
  split; [apply (str_nonempty_length _ j2 Hlr); lia|]. split; [exact Hr|].
  split; [apply (str_nonempty_length _ _ Hld); lia|]. split; [exact Hd|].
  exact Hpost.
Qed.

Lemma String_match_Some (r : regex) (text : string) (m : string * captures) :
  String_match text r = Some m ->
  exists pre rest : string,
    text = pre +:+ rest /\ match_here r rest = Some m
    /\ forall i : nat, (i < String.length pre)%nat ->
                       match_here r (str_drop i text) = None.
Proof.
  induction text as [|c text IH]; cbn [String_match]; intros H.
  - destruct (match_here r "") as [m'|] eqn:E; [|discriminate H].
    injection H as <-. exists "", "". repeat split; [exact E|]. cbn. lia.
  - destruct (match_here r (String c text)) as [m'|] eqn:E.
    + injection H as <-. exists "", (String c text). repeat split; [exact E|]. cbn. lia.
    + destruct (IH H) as (pre & rest & -> & Hm & Hnone).
      exists (String c pre), rest. rewrite str_app_cons. repeat split; [exact Hm|].
      intros [|i] Hi; [exact E|]. cbn [str_drop]. apply Hnone. cbn in Hi. lia.
Qed.

Lemma parseInt_loop_nonneg (s : string) (acc : Z) :
  0 <= acc -> 0 <= parseInt_loop s acc.
Proof.
  revert acc. induction s as [|c s IH]; intros acc Hacc; [exact Hacc|].
  cbn [parseInt_loop]. destruct (is_digit c) eqn:Ec; [|exact Hacc].
  apply IH. unfold is_digit in Ec. cbn zeta in Ec.
  apply andb_true_iff in Ec as [E1 E2].
  apply Nat.leb_le in E1. lia.
Qed.

Lemma split_no_slash (a : string) :
  str_forall not_slash a = true -> split "/" a = [a].
Proof.
  induction a as [|c a IH]; intros H; [reflexivity|].
  cbn [str_forall] in H. apply andb_true_iff in H as [Hc Ha].
  cbn [split]. unfold not_slash in Hc. apply negb_true_iff in Hc. rewrite Hc, (IH Ha).
  reflexivity.
Qed.

Lemma split_owner_name (a b : string) :
  str_forall not_slash a = true -> str_forall not_slash b = true ->
  split "/" (a +:+ "/" +:+ b) = [a; b].
Proof.
  intros Ha Hb. induction a as [|c a IH].
  - change ("" +:+ "/" +:+ b) with (String "/" b). cbn [split].
    rewrite Ascii.eqb_refl, (split_no_slash b Hb). reflexivity.
  - cbn [str_forall] in Ha. apply andb_true_iff in Ha as [Hc Ha].
    rewrite str_app_cons. cbn [split].
    unfold not_slash in Hc. apply negb_true_iff in Hc. rewrite Hc, (IH Ha). reflexivity.
Qed.

(** X6. Whatever [parsePrUrl] returns was in the text: the text is some
    prose, then the returned URL, then a rest that does not begin with a
    digit; the URL is [https://github.com/<owner>/<repo>/pull/<digits>]
    with a non-empty owner and repository free of slashes; the returned
    repository is [<owner>/<repo>], which [split("/")] takes apart again
    into exactly that owner and name; and the number is the non-negative
    value of the digits. *)
Theorem parsePrUrl_sound :
  forall (text : string) (p : Parsed.t),
    parsePrUrl text = Some p ->
    exists pre owner repo digits post : string,
      text = pre +:+ Parsed.url p +:+ post
      /\ Parsed.url p = pr_url owner repo digits
      /\ Parsed.repo p = owner +:+ "/" +:+ repo
      /\ split "/" (Parsed.repo p) = [owner; repo]
      /\ owner <> "" /\ repo <> "" /\ digits <> ""
      /\ str_forall is_digit digits = true
      /\ head_in is_digit post = false
      /\ Parsed.number p = parseInt digits
      /\ 0 <= Parsed.number p.
Proof.
  intros text p H. unfold parsePrUrl in H.
  destruct (String_match text PR_URL_RE) as [[m caps]|] eqn:E; [|discriminate H].
  injection H as <-.
  apply String_match_Some in E as (pre & rest & -> & Hm & _).
  apply match_here_PR_URL_inv in Hm
    as (owner & repo & digits & post & -> & -> & -> & Ho & Hos & Hr & Hrs & Hd & Hds & Hp).
  exists pre, owner, repo, digits, post.
  cbn [Parsed.url Parsed.repo Parsed.number capture Nat.eqb].
  split; [reflexivity|]. split; [reflexivity|]. split; [reflexivity|].
  split; [apply split_owner_name; assumption|].
  repeat (split; [assumption|]).
  split; [reflexivity|]. apply parseInt_loop_nonneg. lia.
Qed.

(** X7. The parser finds every well-formed pull-request URL that no earlier
    match hides: for a non-empty owner and repository without slashes and a
    non-empty run of digits, followed by something that is not a digit, the
    text is parsed to that URL, that repository and the value of the
    digits. *)
Theorem parsePrUrl_complete :
  forall pre owner repo digits post : string,
    (forall i : nat, (i < String.length pre)%nat ->
       match_here PR_URL_RE (str_drop i (pre +:+ pr_url owner repo digits +:+ post)) = None) ->
    owner <> "" -> str_forall not_slash owner = true ->
    repo <> "" -> str_forall not_slash repo = true ->
    digits <> "" -> str_forall is_digit digits = true ->
    head_in is_digit post = false ->
    parsePrUrl (pre +:+ pr_url owner repo digits +:+ post)
    = Some (Parsed.mk (pr_url owner repo digits) (owner +:+ "/" +:+ repo) (parseInt digits)).
Proof.
  intros pre owner repo digits post Hpre Ho Hos Hr Hrs Hd Hds Hpost.
  unfold parsePrUrl. rewrite String_match_skip by exact Hpre.
  assert (Hm : match_here PR_URL_RE (pr_url owner repo digits +:+ post)
               = Some (pr_url owner repo digits,
                       [(2%nat, digits); (1%nat, owner +:+ "/" +:+ repo)])).
  { unfold pr_url. rewrite !str_app_assoc.
    apply match_here_PR_URL; assumption. }
  rewrite (String_match_here _ _ _ Hm). reflexivity.
Qed.

(** *** Printing a number and reading it back *)

Lemma parseInt_loop_uint_acc (d : Decimal.uint) (acc : positive) :
  parseInt_loop (NilEmpty.string_of_uint d) (Z.pos acc) = Z.pos (Pos.of_uint_acc d acc).
Proof.
  revert acc. induction d as [|d IH|d IH|d IH|d IH|d IH|d IH|d IH|d IH|d IH|d IH];
    intros acc; [reflexivity|..];
    cbn [NilEmpty.string_of_uint parseInt_loop Pos.of_uint_acc];
    change (is_digit _) with true; cbv iota;
    rewrite <- IH; f_equal;
    match goal with
    | |- context [Z.of_nat (nat_of_ascii ?c)] =>
        let v := eval vm_compute in (Z.of_nat (nat_of_ascii c)) in
        change (Z.of_nat (nat_of_ascii c)) with v
    end; lia.
Qed.

Lemma parseInt_loop_uint (d : Decimal.uint) :
  parseInt_loop (NilEmpty.string_of_uint d) 0 = Z.of_N (Pos.of_uint d).
Proof.
  induction d as [|d IH|d IH|d IH|d IH|d IH|d IH|d IH|d IH|d IH|d IH];
    [reflexivity | exact IH |..];
    cbn [NilEmpty.string_of_uint parseInt_loop Pos.of_uint];
    change (is_digit _) with true; cbv iota;
    cbn [Z.of_N]; rewrite <- parseInt_loop_uint_acc; reflexivity.
Qed.

Lemma string_of_uint_digits (d : Decimal.uint) :
  str_forall is_digit (NilEmpty.string_of_uint d) = true.
Proof. induction d; cbn [NilEmpty.string_of_uint str_forall]; try exact IHd; reflexivity. Qed.

Lemma parseInt_nilzero (d : Decimal.uint) :
  parseInt (NilZero.string_of_uint d) = Z.of_uint d
  /\ str_forall is_digit (NilZero.string_of_uint d) = true
  /\ NilZero.string_of_uint d <> "".
Proof.
  destruct d; try (split; [|split]; [reflexivity | reflexivity | discriminate]);
    (split; [apply parseInt_loop_uint | split; [apply string_of_uint_digits | discriminate]]).
Qed.

Lemma Z_to_string_digits (n : Z) :
  0 <= n ->
  parseInt (Z_to_string n) = n
  /\ str_forall is_digit (Z_to_string n) = true
  /\ Z_to_string n <> "".
Proof.
  intros Hn. unfold Z_to_string.
  destruct n as [|p|p]; [repeat split; discriminate | | lia].
  cbn [Z.to_int NilZero.string_of_int].
  destruct (parseInt_nilzero (Pos.to_uint p)) as (Hv & Hd & Hne).
  split; [|split; assumption].
  rewrite Hv. exact (DecimalZ.of_to (Z.pos p)).
Qed.

(** X8. Reading back what was printed: for a non-negative number [n] below
    2^53 (where the numbers of the language are exact and print in decimal),
    the text that a template literal prints for it consists of digits and
    [parseInt] reads [n] back, so the URL of pull request [n] of a
    repository is parsed to that repository and to [n] itself. *)
Theorem parsePrUrl_roundtrip :
  forall (owner repo : string) (n : Z),
    0 <= n < 2 ^ 53 ->
    owner <> "" -> str_forall not_slash owner = true ->
    repo <> "" -> str_forall not_slash repo = true ->
    parseInt (Z_to_string n) = n
    /\ parsePrUrl (pr_url owner repo (Z_to_string n))
       = Some (Parsed.mk (pr_url owner repo (Z_to_string n)) (owner +:+ "/" +:+ repo) n).
Proof.
  intros owner repo n [Hn _] Ho Hos Hr Hrs.
  destruct (Z_to_string_digits n Hn) as (Hv & Hd & Hne).
  split; [exact Hv|].
  unfold parsePrUrl.
  assert (Hm : match_here PR_URL_RE (pr_url owner repo (Z_to_string n))
               = Some (pr_url owner repo (Z_to_string n),
                       [(2%nat, Z_to_string n); (1%nat, owner +:+ "/" +:+ repo)])).
  { replace (pr_url owner repo (Z_to_string n))
      with ("https://github.com/" +:+ owner +:+ "/" +:+ repo +:+ "/pull/"
            +:+ Z_to_string n +:+ "") at 1.
    - apply match_here_PR_URL; try assumption. reflexivity.
    - unfold pr_url. repeat f_equal.
      generalize (Z_to_string n). intros s. induction s as [|c s IH]; [reflexivity|].
      rewrite str_app_cons, IH. reflexivity. }
  rewrite (String_match_here _ _ _ Hm).
  cbn [capture Nat.eqb]. rewrite Hv. reflexivity.
Qed.

(** ** The queries of the backend *)

Lemma queryUnresolvedThreads_range (JSON_parse : string -> Result value) (w : World)
      (command : string) (dir : option string) :
  exists n, queryUnresolvedThreads JSON_parse w command dir = Ok n /\ 0 <= n.
Proof.
  unfold queryUnresolvedThreads.
  destruct (execSync w command dir) as [out|e]; cbn [mbind Result_bind try_catch];
    [|exists 0; split; [reflexivity | lia]].
  destruct (JSON_parse (trim out)) as [data|e]; cbn [mbind Result_bind try_catch];
    [|exists 0; split; [reflexivity | lia]].
  destruct (reviewThreads_nodes_total data) as [nodes ->]. cbn [mbind Result_bind].
  destruct nodes; try (exists 0; split; [reflexivity | lia]).
  destruct (countUnresolvedThreads items) as [n|e] eqn:E; cbn [try_catch].
  - exists n. split; [reflexivity|]. apply countUnresolvedThreads_range in E. lia.
  - exists 0. split; [reflexivity | lia].
Qed.

Lemma rollupChecks_valid (pr : value) (cs : CheckStatus) :
  rollupChecks pr = Ok cs -> valid_tally cs.
Proof.
  unfold rollupChecks, valid_tally. intros H.
  destruct (get_prop pr "statusCheckRollup") as [r|e]; [|discriminate H].
  cbn [mbind Result_bind] in H.
  destruct r; try (injection H as <-; cbn; lia).
  pose proof (parseChecks_buckets _ _ H) as Hsum.
  apply parseChecks_loop_bounds in H. cbn in H. lia.
Qed.

(** What both queries do with the output of [gh pr view], given the value
    the review-thread step yields. *)
Lemma makePrInfo_ok (pr : value) (cs : CheckStatus) (n : Z) :
  truthy (prop pr "number") = true ->
  makePrInfo pr cs n
  = Ok (Some (mkPrInfo (prop pr "number") (prop pr "title") (prop pr "url")
                       (prop pr "state") cs n)).
Proof.
  intros H. unfold makePrInfo, prop in *.
  destruct pr; cbn in H; try discriminate H; reflexivity.
Qed.

Lemma get_prop_truthy (pr v : value) (k : string) :
  get_prop pr k = Ok v -> truthy v = true -> v = prop pr k /\ forall k', get_prop pr k' = Ok (prop pr k').
Proof.
  intros H Hv. unfold prop. rewrite H. split; [reflexivity|].
  intros k'. destruct pr; cbn in *; try discriminate H; try reflexivity;
    injection H as <-; discriminate Hv.
Qed.

(** The pull request a query returns, taken apart. *)
Lemma getPrForBranch_Some (JSON_parse : string -> Result value) (w : World) (dir : string)
      (repo : option RepoInfo) (info : PrInfo) :
  getPrForBranch JSON_parse w dir repo = Ok (Some info) ->
  exists (out : string) (pr : value) (cs : CheckStatus),
    execSync w ("gh pr view " +:+ PR_VIEW_FIELDS) (Some dir) = Ok out
    /\ trim out <> ""
    /\ JSON_parse (trim out) = Ok pr
    /\ truthy (prop pr "number") = true /\ truthy (prop pr "url") = true
    /\ rollupChecks pr = Ok cs
    /\ info = mkPrInfo (prop pr "number") (prop pr "title") (prop pr "url")
                       (prop pr "state") cs (unresolvedThreads info)
    /\ 0 <= unresolvedThreads info.
Proof.
  unfold getPrForBranch. intros H.
  destruct (execSync w ("gh pr view " +:+ PR_VIEW_FIELDS) (Some dir)) as [out|e] eqn:Eout;
    [|discriminate H].
  cbn [mbind Result_bind] in H.
  destruct (String.eqb (trim out) "") eqn:Ene; [discriminate H|].
  apply String.eqb_neq in Ene.
  destruct (JSON_parse (trim out)) as [pr|e] eqn:Epr; [|discriminate H].
  cbn [mbind Result_bind] in H.
  destruct (get_prop pr "number") as [n|e] eqn:En; [|discriminate H].
  cbn [mbind Result_bind] in H.
  destruct (truthy n) eqn:Tn; [|discriminate H]. cbn [negb] in H.
  destruct (get_prop_truthy pr n "number" En Tn) as [-> Hget].
  rewrite (Hget "url") in H. cbn [mbind Result_bind] in H.
  destruct (truthy (prop pr "url")) eqn:Tu; [|discriminate H]. cbn [negb] in H.
  destruct (rollupChecks pr) as [cs|e] eqn:Ecs; [|discriminate H].
  cbn [mbind Result_bind] in H.
  assert (Hq : exists m, 0 <= m /\ makePrInfo pr cs m = Ok (Some info)).
  { destruct repo as [r|].
    - cbn [mbind Result_bind] in H.
      match type of H with
      | context [queryUnresolvedThreads ?p ?ww ?c ?d] =>
          destruct (queryUnresolvedThreads_range p ww c d) as (m & Hm & Hpos)
      end.
      rewrite Hm in H. cbn [mbind Result_bind try_catch] in H.
      exists m. split; [exact Hpos|].
      destruct (makePrInfo pr cs m); [injection H as <-; reflexivity | discriminate H].
    - cbn [mbind Result_bind] in H. exists 0. split; [lia|].
      destruct (makePrInfo pr cs 0); [injection H as <-; reflexivity | discriminate H]. }
  destruct Hq as (m & Hpos & Hmk). rewrite (makePrInfo_ok pr cs m Tn) in Hmk.
  injection Hmk as <-. exists out, pr, cs. cbn [unresolvedThreads].
  repeat split; try assumption; reflexivity.
Qed.

Lemma getPrByNumber_Some (JSON_parse : string -> Result value) (w : World) (repo : string)
      (prNumber : Z) (info : PrInfo) :
  getPrByNumber JSON_parse w repo prNumber = Ok (Some info) ->
  exists (out : string) (pr : value) (cs : CheckStatus),
    execSync w (pr_view_command repo prNumber) None = Ok out
    /\ trim out <> ""
    /\ JSON_parse (trim out) = Ok pr
    /\ truthy (prop pr "number") = true /\ truthy (prop pr "url") = true
    /\ rollupChecks pr = Ok cs
    /\ info = mkPrInfo (prop pr "number") (prop pr "title") (prop pr "url")
                       (prop pr "state") cs (unresolvedThreads info)
    /\ 0 <= unresolvedThreads info.
Proof.
  unfold getPrByNumber, pr_view_command. intros H.
  match type of H with
  | context [execSync w ?c None] =>
      destruct (execSync w c None) as [out|e] eqn:Eout; [|discriminate H]
  end.
  cbn [mbind Result_bind] in H.
  destruct (String.eqb (trim out) "") eqn:Ene; [discriminate H|].
  apply String.eqb_neq in Ene.
  destruct (JSON_parse (trim out)) as [pr|e] eqn:Epr; [|discriminate H].
  cbn [mbind Result_bind] in H.
  destruct (get_prop pr "number") as [n|e] eqn:En; [|discriminate H].
  cbn [mbind Result_bind] in H.
  destruct (truthy n) eqn:Tn; [|discriminate H]. cbn [negb] in H.
  destruct (get_prop_truthy pr n "number" En Tn) as [-> Hget].
  rewrite (Hget "url") in H. cbn [mbind Result_bind] in H.
  destruct (truthy (prop pr "url")) eqn:Tu; [|discriminate H]. cbn [negb] in H.
  destruct (rollupChecks pr) as [cs|e] eqn:Ecs; [|discriminate H].
  cbn [mbind Result_bind] in H.
  assert (Hq : exists m, 0 <= m /\ makePrInfo pr cs m = Ok (Some info)).
  { destruct (split "/" repo !! 0%nat) as [o|];
      [destruct (split "/" repo !! 1%nat) as [nm|];
       [destruct (negb (String.eqb o "") && negb (String.eqb nm ""))|]|].
    - cbn [mbind Result_bind] in H.
      match type of H with
      | context [queryUnresolvedThreads ?p ?ww ?c ?d] =>
          destruct (queryUnresolvedThreads_range p ww c d) as (m & Hm & Hpos)
      end.
      rewrite Hm in H. cbn [mbind Result_bind try_catch] in H.
      exists m. split; [exact Hpos|].
      destruct (makePrInfo pr cs m); [injection H as <-; reflexivity | discriminate H].
    - cbn [mbind Result_bind] in H. exists 0. split; [lia|].
      destruct (makePrInfo pr cs 0); [injection H as <-; reflexivity | discriminate H].
    - cbn [mbind Result_bind] in H. exists 0. split; [lia|].
      destruct (makePrInfo pr cs 0); [injection H as <-; reflexivity | discriminate H].
    - cbn [mbind Result_bind] in H. exists 0. split; [lia|].
      destruct (makePrInfo pr cs 0); [injection H as <-; reflexivity | discriminate H]. }
  destruct Hq as (m & Hpos & Hmk). rewrite (makePrInfo_ok pr cs m Tn) in Hmk.
  injection Hmk as <-. exists out, pr, cs. cbn [unresolvedThreads].
  repeat split; try assumption; reflexivity.
Qed.

(** X9. Every pull request that a query returns satisfies the invariants of
    the data model: its number and URL are truthy, the buckets of its check
    tally are non-negative and add up to the total, and its count of
    unresolved threads is non-negative.  This holds for the query by branch
    and for the query by number. *)
Theorem query_results_well_formed :
  forall (JSON_parse : string -> Result value) (w : World) (info : PrInfo),
    (exists dir repo, getPrForBranch JSON_parse w dir repo = Ok (Some info))
    \/ (exists repo n, getPrByNumber JSON_parse w repo n = Ok (Some info)) ->
    truthy (number info) = true
    /\ truthy (url info) = true
    /\ valid_tally (checks info)
    /\ 0 <= unresolvedThreads info.
Proof.
  intros JSON_parse w info [(dir & repo & H) | (repo & n & H)].
  - apply getPrForBranch_Some in H as (out & pr & cs & _ & _ & _ & Tn & Tu & Hcs & -> & Hpos).
    cbn [number url checks unresolvedThreads] in *.
    repeat split; try assumption; apply (rollupChecks_valid pr cs Hcs).
  - apply getPrByNumber_Some in H as (out & pr & cs & _ & _ & _ & Tn & Tu & Hcs & -> & Hpos).
    cbn [number url checks unresolvedThreads] in *.
    repeat split; try assumption; apply (rollupChecks_valid pr cs Hcs).
Qed.

Lemma getPrByNumber_usable (JSON_parse : string -> Result value) (w : World) (repo : string)
      (prNumber : Z) (pr : value) (cs : CheckStatus) :
  usable_answer JSON_parse (execSync w (pr_view_command repo prNumber) None) pr cs ->
  exists n : Z,
    0 <= n
    /\ getPrByNumber JSON_parse w repo prNumber
       = Ok (Some (mkPrInfo (prop pr "number") (prop pr "title") (prop pr "url")
                            (prop pr "state") cs n)).
Proof.
  intros (out & Hout & Hne & Hpr & Tn & Tu & Hcs).
  unfold getPrByNumber. unfold pr_view_command in Hout. rewrite Hout.
  cbn [mbind Result_bind].
  apply String.eqb_neq in Hne. rewrite Hne, Hpr. cbn [mbind Result_bind].
  assert (Hget : forall k, get_prop pr k = Ok (prop pr k)).
  { intros k. unfold prop in *. destruct pr; cbn in Tn; try discriminate Tn; reflexivity. }
  rewrite !Hget. cbn [mbind Result_bind]. rewrite Tn, Tu. cbn [negb].
  rewrite Hcs. cbn [mbind Result_bind].
  assert (Hstep : forall q : Result Z,
             (exists n, q = Ok n /\ 0 <= n) ->
             exists n, 0 <= n
               /\ try_catch (q ≫= λ u : Z, makePrInfo pr cs u) (Ok None)
                  = Ok (Some (mkPrInfo (prop pr "number") (prop pr "title") (prop pr "url")
                                       (prop pr "state") cs n))).
  { intros q (n & -> & Hn). exists n. split; [exact Hn|].
    cbn [mbind Result_bind]. rewrite (makePrInfo_ok pr cs n Tn). reflexivity. }
  apply Hstep.
  destruct (split "/" repo !! 0%nat) as [o|];
    [destruct (split "/" repo !! 1%nat) as [nm|];
     [destruct (negb (String.eqb o "") && negb (String.eqb nm ""))|]|];
    try (exists 0; split; [reflexivity | lia]).
  cbn [mbind Result_bind]. apply queryUnresolvedThreads_range.
Qed.

(** X10. [getPrByNumber] never raises, and it returns a pull request exactly
    when the answer of [gh pr view <n> --repo <repo>] is usable: the
    process succeeds, its output is not blank, parses, carries a truthy
    [number] and [url], and its check rollup aggregates.  The pull request
    returned carries those fields and that tally; in every other case the
    result is absent. *)
Theorem getPrByNumber_contract :
  forall (JSON_parse : string -> Result value) (w : World) (repo : string) (prNumber : Z),
    let answer := execSync w (pr_view_command repo prNumber) None in
    let result := getPrByNumber JSON_parse w repo prNumber in
    (exists r, result = Ok r)
    /\ (forall info : PrInfo,
          result = Ok (Some info) ->
          exists (pr : value) (cs : CheckStatus),
            usable_answer JSON_parse answer pr cs
            /\ info = mkPrInfo (prop pr "number") (prop pr "title") (prop pr "url")
                               (prop pr "state") cs (unresolvedThreads info))
    /\ (forall (pr : value) (cs : CheckStatus),
          usable_answer JSON_parse answer pr cs ->
          exists n : Z,
            0 <= n
            /\ result = Ok (Some (mkPrInfo (prop pr "number") (prop pr "title")
                                           (prop pr "url") (prop pr "state") cs n)))
    /\ ((forall pr cs, ~ usable_answer JSON_parse answer pr cs) -> result = Ok None).
Proof.
  intros JSON_parse w repo prNumber answer result. subst answer result.
  split; [apply try_catch_total|]. split; [|split].
  - intros info H.
    apply getPrByNumber_Some in H
      as (out & pr & cs & Hout & Hne & Hpr & Tn & Tu & Hcs & Hinfo & _).
    exists pr, cs. split; [|exact Hinfo].
    exists out. repeat split; assumption.
  - intros pr cs Hu. apply getPrByNumber_usable, Hu.
  - intros Hno.
    destruct (getPrByNumber JSON_parse w repo prNumber) as [[info|]|e] eqn:E.
    + exfalso. apply getPrByNumber_Some in E
        as (out & pr & cs & Hout & Hne & Hpr & Tn & Tu & Hcs & _).
      apply (Hno pr cs). exists out. repeat split; assumption.
    + reflexivity.
    + exfalso. destruct (getPrByNumber_total JSON_parse w repo prNumber) as [r Hr].
      rewrite E in Hr. discriminate Hr.
Qed.

(** X11. [getRepoInfo] never raises; the coordinates it returns are the
    [owner.login] and [name] of the parsed answer of [gh repo view], and
    both are truthy; and it returns them whenever the answer parses and
    carries both. *)
Theorem getRepoInfo_contract :
  forall (JSON_parse : string -> Result value) (w : World) (dir : string),
    let answer := execSync w "gh repo view --json owner,name" (Some dir) in
    let result := getRepoInfo JSON_parse w dir in
    (exists r, result = Ok r)
    /\ (forall info : RepoInfo,
          result = Ok (Some info) ->
          truthy (owner info) = true /\ truthy (name info) = true
          /\ exists (out : string) (repo : value),
               answer = Ok out /\ JSON_parse (trim out) = Ok repo
               /\ owner info = prop (prop repo "owner") "login"
               /\ name info = prop repo "name")
    /\ (forall (out : string) (repo : value),
          answer = Ok out -> JSON_parse (trim out) = Ok repo ->
          truthy (prop (prop repo "owner") "login") = true ->
          truthy (prop repo "name") = true ->
          result = Ok (Some (mkRepoInfo (prop (prop repo "owner") "login")
                                        (prop repo "name")))).
Proof.
  intros JSON_parse w dir answer result. subst answer result.
  split; [apply try_catch_total|]. unfold getRepoInfo. split.
  - intros info H.
    destruct (execSync w "gh repo view --json owner,name" (Some dir)) as [out|e] eqn:Eout;
      [|discriminate H].
    cbn [mbind Result_bind] in H.
    destruct (JSON_parse (trim out)) as [repo|e] eqn:Erepo; [|discriminate H].
    cbn [mbind Result_bind] in H.
    destruct (get_prop repo "owner") as [o|e] eqn:Eo; [|discriminate H].
    cbn [mbind Result_bind] in H.
    destruct (get_prop_opt o "login") as [l|e] eqn:El; [|discriminate H].
    cbn [mbind Result_bind] in H.
    destruct (get_prop repo "name") as [nm|e] eqn:En; [|discriminate H].
    cbn [mbind Result_bind] in H.
    destruct (truthy l) eqn:Tl; [|discriminate H].
    destruct (truthy nm) eqn:Tnm; [|discriminate H].
    cbn [andb] in H.
    destruct (get_prop o "login") as [l'|e] eqn:El'; [|discriminate H].
    cbn [mbind Result_bind try_catch] in H. injection H as <-.
    assert (l' = l) as ->.
    { destruct o; cbn in El, El'; try discriminate El'; congruence. }
    cbn [owner name]. split; [exact Tl|]. split; [exact Tnm|].
    exists out, repo. unfold prop. rewrite Eo, El', En. repeat split. exact Erepo.
  - intros out repo Hout Hrepo Tl Tn. rewrite Hout. cbn [mbind Result_bind].
    rewrite Hrepo. cbn [mbind Result_bind].
    unfold prop in *.
    destruct (get_prop repo "owner") as [o|e] eqn:Eo; [|discriminate Tl].
    cbn [mbind Result_bind].
    destruct (get_prop o "login") as [l|e] eqn:El; [|discriminate Tl].
    assert (get_prop_opt o "login" = Ok l) as ->.
    { destruct o; cbn in El |- *; try discriminate El; exact El. }
    cbn [mbind Result_bind].
    destruct (get_prop repo "name") as [nm|e] eqn:En; [|discriminate Tn].
    cbn [mbind Result_bind]. rewrite Tl, Tn. reflexivity.
Qed.

(** The exact result of both queries on a usable answer. *)
Lemma getPrForBranch_usable (JSON_parse : string -> Result value) (w : World) (dir : string)
      (repo : option RepoInfo) (pr : value) (cs : CheckStatus) :
  usable_answer JSON_parse
    (execSync w ("gh pr view " +:+ PR_VIEW_FIELDS) (Some dir)) pr cs ->
  getPrForBranch JSON_parse w dir repo
  = (n ← match repo with
         | Some r =>
             queryUnresolvedThreads JSON_parse w
               (graphql_command (ToString (owner r)) (ToString (name r))
                                (ToString (prop pr "number")))
               (Some dir)
         | None => Ok 0
         end;
     Ok (Some (mkPrInfo (prop pr "number") (prop pr "title") (prop pr "url")
                        (prop pr "state") cs n))).
Proof.
  intros (out & Hout & Hne & Hpr & Tn & Tu & Hcs).
  unfold getPrForBranch. rewrite Hout. cbn [mbind Result_bind].
  apply String.eqb_neq in Hne. rewrite Hne, Hpr. cbn [mbind Result_bind].
  assert (Hget : forall k, get_prop pr k = Ok (prop pr k)).
  { intros k. unfold prop in *. destruct pr; cbn in Tn; try discriminate Tn; reflexivity. }
  rewrite !Hget. cbn [mbind Result_bind]. rewrite Tn, Tu. cbn [negb].
  rewrite Hcs. cbn [mbind Result_bind].
  destruct repo as [r|].
  - cbn [mbind Result_bind].
    match goal with
    | |- context [queryUnresolvedThreads ?p ?ww ?c ?d] =>
        destruct (queryUnresolvedThreads_range p ww c d) as (m & -> & _)
    end.
    cbn [mbind Result_bind]. rewrite (makePrInfo_ok pr cs m Tn). reflexivity.
  - cbn [mbind Result_bind]. rewrite (makePrInfo_ok pr cs 0 Tn). reflexivity.
Qed.

Lemma getPrByNumber_usable_eq (JSON_parse : string -> Result value) (w : World)
      (repo : string) (prNumber : Z) (pr : value) (cs : CheckStatus) :
  usable_answer JSON_parse (execSync w (pr_view_command repo prNumber) None) pr cs ->
  getPrByNumber JSON_parse w repo prNumber
  = (n ← match split "/" repo !! 0%nat, split "/" repo !! 1%nat with
         | Some o, Some nm =>
             if negb (String.eqb o "") && negb (String.eqb nm "") then
               queryUnresolvedThreads JSON_parse w
                 (graphql_command o nm (ToString (prop pr "number"))) None
             else Ok 0
         | _, _ => Ok 0
         end;
     Ok (Some (mkPrInfo (prop pr "number") (prop pr "title") (prop pr "url")
                        (prop pr "state") cs n))).
Proof.
  intros (out & Hout & Hne & Hpr & Tn & Tu & Hcs).
  unfold getPrByNumber. unfold pr_view_command in Hout. rewrite Hout.
  cbn [mbind Result_bind].
  apply String.eqb_neq in Hne. rewrite Hne, Hpr. cbn [mbind Result_bind].
  assert (Hget : forall k, get_prop pr k = Ok (prop pr k)).
  { intros k. unfold prop in *. destruct pr; cbn in Tn; try discriminate Tn; reflexivity. }
  rewrite !Hget. cbn [mbind Result_bind]. rewrite Tn, Tu. cbn [negb].
  rewrite Hcs. cbn [mbind Result_bind].
  destruct (split "/" repo !! 0%nat) as [o|];
    [destruct (split "/" repo !! 1%nat) as [nm|];
     [destruct (negb (String.eqb o "") && negb (String.eqb nm ""))|]|];
    cbn [mbind Result_bind]; try (rewrite (makePrInfo_ok pr cs 0 Tn); reflexivity).
  match goal with
  | |- context [queryUnresolvedThreads ?p ?ww ?c ?d] =>
      destruct (queryUnresolvedThreads_range p ww c d) as (m & -> & _)
  end.
  cbn [mbind Result_bind]. rewrite (makePrInfo_ok pr cs m Tn). reflexivity.
Qed.

Lemma queryUnresolvedThreads_counts (JSON_parse : string -> Result value) (w : World)
      (command : string) (dir : option string) (out : string) (data : value)
      (bs : list bool) :
  execSync w command dir = Ok out ->
  JSON_parse (trim out) = Ok data ->
  reviewThreads_nodes data = Ok (VArr (map thread_value bs)) ->
  queryUnresolvedThreads JSON_parse w command dir
  = Ok (Z.of_nat (length (filter (fun b => b = false) bs))).
Proof.
  intros Hout Hdata Hnodes. unfold queryUnresolvedThreads.
  rewrite Hout. cbn [mbind Result_bind]. rewrite Hdata. cbn [mbind Result_bind].
  rewrite Hnodes. cbn [mbind Result_bind].
  rewrite countUnresolvedThreads_typed. reflexivity.
Qed.

(** X12. The full answer of the query by branch: when the answer of
    [gh pr view] is usable, repository coordinates are given, and the
    review-thread query answers the threads [{isResolved: b}], the pull
    request returned carries the parsed fields, the aggregated tally and
    the number of threads whose [isResolved] is false. *)
Theorem getPrForBranch_with_threads :
  forall (JSON_parse : string -> Result value) (w : World) (dir out : string)
         (r : RepoInfo) (pr data : value) (cs : CheckStatus) (bs : list bool),
    usable_answer JSON_parse
      (execSync w ("gh pr view " +:+ PR_VIEW_FIELDS) (Some dir)) pr cs ->
    execSync w (graphql_command (ToString (owner r)) (ToString (name r))
                                (ToString (prop pr "number"))) (Some dir) = Ok out ->
    JSON_parse (trim out) = Ok data ->
    reviewThreads_nodes data = Ok (VArr (map thread_value bs)) ->
    getPrForBranch JSON_parse w dir (Some r)
    = Ok (Some (mkPrInfo (prop pr "number") (prop pr "title") (prop pr "url")
                         (prop pr "state") cs
                         (Z.of_nat (length (filter (fun b => b = false) bs))))).
Proof.
  intros JSON_parse w dir out r pr data cs bs Hu Hout Hdata Hnodes.
  rewrite (getPrForBranch_usable _ _ _ _ pr cs Hu).
  rewrite (queryUnresolvedThreads_counts _ _ _ _ out data bs Hout Hdata Hnodes).
  reflexivity.
Qed.

(** X13. The two queries build the same pull request from the same
    answers: for a repository text [<owner>/<name>] with a non-empty owner
    and name free of slashes, if the backend answers the query by number
    as it answers the query by branch, and answers every command alike with
    and without a working directory, then [getPrByNumber] returns what
    [getPrForBranch] returns for the coordinates [{owner, name}]. *)
Theorem getPrByNumber_agrees_with_getPrForBranch :
  forall (JSON_parse : string -> Result value) (w : World) (dir : string)
         (o nm : string) (prNumber : Z),
    o <> "" -> str_forall not_slash o = true ->
    nm <> "" -> str_forall not_slash nm = true ->
    execSync w (pr_view_command (o +:+ "/" +:+ nm) prNumber) None
    = execSync w ("gh pr view " +:+ PR_VIEW_FIELDS) (Some dir) ->
    (forall command, execSync w command None = execSync w command (Some dir)) ->
    getPrByNumber JSON_parse w (o +:+ "/" +:+ nm) prNumber
    = getPrForBranch JSON_parse w dir (Some (mkRepoInfo (VStr o) (VStr nm))).
Proof.
  intros JSON_parse w dir o nm prNumber Ho Hos Hn Hns Hsame Hdir.
  unfold getPrByNumber, getPrForBranch.
  unfold pr_view_command in Hsame. rewrite Hsame.
  destruct (execSync w ("gh pr view " +:+ PR_VIEW_FIELDS) (Some dir)) as [out|e];
    [|reflexivity].
  cbn [mbind Result_bind].
  destruct (String.eqb (trim out) ""); [reflexivity|].
  destruct (JSON_parse (trim out)) as [pr|e]; [|reflexivity].
  cbn [mbind Result_bind].
  destruct (get_prop pr "number") as [n|e]; [|reflexivity]. cbn [mbind Result_bind].
  destruct (truthy n); [|reflexivity]. cbn [negb].
  destruct (get_prop pr "url") as [u|e]; [|reflexivity]. cbn [mbind Result_bind].
  destruct (truthy u); [|reflexivity]. cbn [negb].
  destruct (rollupChecks pr) as [cs|e]; [|reflexivity]. cbn [mbind Result_bind].
  rewrite (split_owner_name o nm Hos Hns). cbn [lookup list_lookup].
  apply String.eqb_neq in Ho, Hn. rewrite Ho, Hn. cbn [negb andb owner name ToString].
  cbn [mbind Result_bind].
  unfold queryUnresolvedThreads. rewrite Hdir. reflexivity.
Qed.

(** ** The selector over whole sessions *)

Lemma setStatus_twice (k : string) (v1 v2 : option string) (bar : gmap string string) :
  setStatus k v2 (setStatus k v1 bar) = setStatus k v2 bar.
Proof.
  destruct v1, v2; cbn [setStatus].
  - apply insert_insert_eq.
  - apply delete_insert_eq.
  - apply insert_delete_eq.
  - apply delete_delete_eq.
Qed.

Lemma setStatus_other (k k' : string) (v : option string) (bar : gmap string string) :
  k <> k' -> setStatus k v bar !! k' = bar !! k'.
Proof.
  intros Hne. destruct v; cbn [setStatus].
  - apply lookup_insert_ne, Hne.
  - apply lookup_delete_ne, Hne.
Qed.

Lemma setStatus_lookup (k : string) (v : option string) (bar : gmap string string) :
  setStatus k v bar !! k = v.
Proof.
  destruct v; cbn [setStatus]; [apply lookup_insert_eq | apply lookup_delete_eq].
Qed.

(** Reduce the record updates of the selector, in the goal or a hypothesis,
    without touching the status-bar map. *)
Ltac sel_simpl :=
  unfold showStatus, set_timer, set_lastPr, set_statusBar, set_lastBranch, set_cachedRepo,
    set_pinnedPr, set_latestCtx;
  cbn [timer lastBranch lastPr cachedRepo pinnedPr latestCtx statusBar
       fmap option_fmap option_map negb andb orb mbind Result_bind].

Ltac sel_simpl_in H :=
  unfold showStatus, set_timer, set_lastPr, set_statusBar, set_lastBranch, set_cachedRepo,
    set_pinnedPr, set_latestCtx in H;
  cbn [timer lastBranch lastPr cachedRepo pinnedPr latestCtx statusBar
       fmap option_fmap option_map negb andb orb mbind Result_bind] in H.

(** The branch query of a poll tick, read in the hypothesis [H]: the cached
    repository or its lookup, then the query; the cases that would have
    thrown are closed. *)
Ltac branch_query JP w dir cr H :=
  destruct cr as [?r|];
  [|destruct (getRepoInfo JP w dir) as [?r|?e] eqn:?Er; [|discriminate H]];
  sel_simpl_in H;
  match type of H with
  | context [getPrForBranch JP w dir ?r0] =>
      destruct (getPrForBranch JP w dir r0) as [?bp|?e] eqn:?Ebp; [|discriminate H]
  end;
  sel_simpl_in H.

(** What a poll tick can do to a session: the timer and the context stay;
    the pull request shown comes from a query of this tick and the status
    bar is set from it; the cached repository is kept, or looked up if
    there was none; the pin is kept or dropped. *)
Lemma update_shape (JSON_parse : string -> Result value) (w : World) (dir : string)
      (s s' : Session) :
  update JSON_parse w dir s = Ok s' ->
  exists (lb : option string) (lp : option PrInfo) (cr : option RepoInfo)
         (pp : option Pin.t),
    s' = mkSession (timer s) lb lp cr pp (latestCtx s)
                   (setStatus STATUS_KEY (formatStatus <$> lp) (statusBar s))
    /\ from_query JSON_parse w lp
    /\ (cr = cachedRepo s \/ (cachedRepo s = None /\ getRepoInfo JSON_parse w dir = Ok cr))
    /\ (pp = pinnedPr s \/ pp = None).
Proof.
  destruct s as [t lb lp cr pp lc sb]. unfold update, from_query, ensureCachedRepo.
  intros H. sel_simpl_in H. sel_simpl.
  assert (Hleaf : forall lb' lp' cr' pp' bar,
             bar = setStatus STATUS_KEY (formatStatus <$> lp') sb ->
             (lp' = None
              \/ (exists repo n, getPrByNumber JSON_parse w repo n = Ok lp')
              \/ (exists dir r, getPrForBranch JSON_parse w dir r = Ok lp')) ->
             (cr' = cr \/ (cr = None /\ getRepoInfo JSON_parse w dir = Ok cr')) ->
             (pp' = pp \/ pp' = None) ->
             exists lb0 lp0 cr0 pp0,
               mkSession t lb' lp' cr' pp' lc bar
               = mkSession t lb0 lp0 cr0 pp0 lc
                           (setStatus STATUS_KEY (formatStatus <$> lp0) sb)
               /\ (lp0 = None
                   \/ (exists repo n, getPrByNumber JSON_parse w repo n = Ok lp0)
                   \/ (exists dir r, getPrForBranch JSON_parse w dir r = Ok lp0))
               /\ (cr0 = cr \/ (cr = None /\ getRepoInfo JSON_parse w dir = Ok cr0))
               /\ (pp0 = pp \/ pp0 = None)).
  { intros lb' lp' cr' pp' bar -> Hq Hc Hp. exists lb', lp', cr', pp'. auto. }
  destruct pp as [pin|].
  - destruct (getPrByNumber JSON_parse w (Pin.repo pin) (Pin.number pin))
      as [pr|e] eqn:Epr; [|discriminate H].
    sel_simpl_in H.
    destruct pr as [pr|];
      [|injection H as <-; apply Hleaf; [reflexivity | left; reflexivity | auto | auto]].
    destruct (getBranch w dir) as [b|e]; [|discriminate H].
    sel_simpl_in H.
    destruct (no_branch b), (is_HEAD b), (same_branch b lb); sel_simpl_in H;
      try (injection H as <-; apply Hleaf;
           [reflexivity | right; left; eauto | auto | auto]);
      branch_query JSON_parse w dir cr H;
      (destruct bp as [bp|]; [destruct (strict_eq_str (state bp) "OPEN")|]);
      injection H as <-; sel_simpl; apply Hleaf.
    all: try (left; reflexivity).
    all: try (right; reflexivity).
    all: try (right; split; reflexivity).
    all: try (right; right; eexists; eexists; eassumption).
    all: try (right; left; eexists; eexists; eassumption).
    all: unfold setStatus; cbn [fmap option_fmap option_map];
      rewrite ?insert_insert_eq; reflexivity.
  - destruct (getBranch w dir) as [b|e]; [|discriminate H].
    sel_simpl_in H.
    destruct (no_branch b), (is_HEAD b), (same_branch b lb); sel_simpl_in H;
      try (injection H as <-; apply Hleaf;
           [reflexivity | left; reflexivity | auto | auto]);
      branch_query JSON_parse w dir cr H;
      injection H as <-; sel_simpl; apply Hleaf.
    all: try (left; reflexivity).
    all: try (right; split; reflexivity).
    all: try (right; right; eexists; eexists; eassumption).
    all: reflexivity.
Qed.

Lemma tryPinFromUrl_shape (JSON_parse : string -> Result value) (w : World) (txt : string)
      (ctx : ExtensionContext) (s s' : Session) :
  tryPinFromUrl JSON_parse w txt ctx s = Ok s' ->
  s' = s
  \/ exists (parsed : Parsed.t) (lp : option PrInfo),
       parsePrUrl txt = Some parsed
       /\ getPrByNumber JSON_parse w (Parsed.repo parsed) (Parsed.number parsed) = Ok lp
       /\ s' = mkSession (timer s) (lastBranch s) lp (cachedRepo s)
                         (Some (Pin.mk (Parsed.repo parsed) (Parsed.number parsed)))
                         (Some ctx)
                         (setStatus STATUS_KEY (formatStatus <$> lp) (statusBar s)).
Proof.
  unfold tryPinFromUrl. intros H.
  destruct (parsePrUrl txt) as [parsed|] eqn:Ep; [|injection H as <-; left; reflexivity].
  destruct (same_pin (pinnedPr s) parsed); [injection H as <-; left; reflexivity|].
  destruct (hasActiveBranchPr s); [injection H as <-; left; reflexivity|].
  destruct (getPrByNumber JSON_parse w (Parsed.repo parsed) (Parsed.number parsed))
    as [lp|e] eqn:E; [|discriminate H].
  cbn [mbind Result_bind] in H. injection H as <-.
  right. exists parsed, lp. split; [reflexivity|]. split; [exact E | reflexivity].
Qed.

Lemma from_query_well_formed (JSON_parse : string -> Result value) (w : World)
      (lp : option PrInfo) (pr : PrInfo) :
  from_query JSON_parse w lp -> lp = Some pr -> well_formed_pr pr.
Proof.
  intros Hq ->. destruct Hq as [H | [(repo & n & H) | (dir & r & H)]]; [discriminate H| |].
  - apply getPrByNumber_Some in H as (out & v & cs & _ & _ & _ & Tn & Tu & Hcs & -> & Hpos).
    cbn [unresolvedThreads] in *. repeat split; try assumption;
      apply (rollupChecks_valid v cs Hcs).
  - apply getPrForBranch_Some in H as (out & v & cs & _ & _ & _ & Tn & Tu & Hcs & -> & Hpos).
    cbn [unresolvedThreads] in *. repeat split; try assumption;
      apply (rollupChecks_valid v cs Hcs).
Qed.

Lemma getRepoInfo_well_formed (JSON_parse : string -> Result value) (w : World)
      (dir : string) (r : RepoInfo) :
  getRepoInfo JSON_parse w dir = Ok (Some r) -> well_formed_repo r.
Proof.
  unfold getRepoInfo. intros H.
  destruct (execSync w "gh repo view --json owner,name" (Some dir)) as [out|e];
    [|discriminate H].
  cbn [mbind Result_bind] in H.
  destruct (JSON_parse (trim out)) as [repo|e]; [|discriminate H].
  cbn [mbind Result_bind] in H.
  destruct (get_prop repo "owner") as [o|e]; [|discriminate H].
  cbn [mbind Result_bind] in H.
  destruct (get_prop_opt o "login") as [l|e] eqn:El; [|discriminate H].
  cbn [mbind Result_bind] in H.
  destruct (get_prop repo "name") as [nm|e]; [|discriminate H].
  cbn [mbind Result_bind] in H.
  destruct (truthy l) eqn:Tl; [|discriminate H].
  destruct (truthy nm) eqn:Tnm; [|discriminate H].
  cbn [andb] in H.
  destruct (get_prop o "login") as [l'|e] eqn:El'; [|discriminate H].
  cbn [mbind Result_bind try_catch] in H. injection H as <-.
  assert (l' = l) as ->.
  { destruct o; cbn in El, El'; try discriminate El'; congruence. }
  split; assumption.
Qed.

Lemma parsePrUrl_pin (txt : string) (p : Parsed.t) :
  parsePrUrl txt = Some p ->
  well_formed_pin (Pin.mk (Parsed.repo p) (Parsed.number p)).
Proof.
  intros H. unfold parsePrUrl in H.
  destruct (String_match txt PR_URL_RE) as [[m caps]|] eqn:E; [|discriminate H].
  injection H as <-.
  apply String_match_Some in E as (pre & rest & -> & Hm & _).
  apply match_here_PR_URL_inv in Hm
    as (o & nm & digits & post & -> & -> & -> & Ho & Hos & Hr & Hrs & Hd & Hds & Hp).
  split; cbn [Pin.repo Pin.number Parsed.repo Parsed.number capture Nat.eqb].
  - apply parseInt_loop_nonneg. lia.
  - exists o, nm. repeat split; assumption.
Qed.

Lemma initial_invariant : session_invariant initial.
Proof.
  split; [reflexivity|]. split; [intros k _; apply lookup_empty|].
  repeat split; discriminate.
Qed.

(** A poll tick establishes the invariant from less: the status bar and the
    last pull request are both set anew. *)
Lemma update_invariant (JSON_parse : string -> Result value) (w : World) (dir : string)
      (s : Session) :
  (forall k : string, k <> STATUS_KEY -> statusBar s !! k = None) ->
  (forall r, cachedRepo s = Some r -> well_formed_repo r) ->
  (forall pin, pinnedPr s = Some pin -> well_formed_pin pin) ->
  exists s', update JSON_parse w dir s = Ok s' /\ session_invariant s'.
Proof.
  intros Hkeys Hrepo Hpin.
  destruct (update_total JSON_parse w dir s) as [s' Hs']. exists s'.
  split; [exact Hs'|].
  apply update_shape in Hs' as (lb & lp & cr & pp & -> & Hq & Hcr & Hpp).
  unfold session_invariant, in_sync, displayed.
  cbn [statusBar lastPr cachedRepo pinnedPr].
  split; [apply setStatus_lookup|].
  split; [intros k Hk; rewrite setStatus_other by congruence; apply Hkeys, Hk|].
  split; [intros pr Hlp; apply (from_query_well_formed JSON_parse w lp pr Hq Hlp)|].
  split.
  - intros r Hr. destruct Hcr as [-> | [_ Hget]]; [apply Hrepo, Hr|].
    subst cr. apply (getRepoInfo_well_formed JSON_parse w dir r Hget).
  - intros pin Hp. destruct Hpp as [-> | ->]; [apply Hpin, Hp | discriminate Hp].
Qed.

Lemma tryPinFromUrl_invariant (JSON_parse : string -> Result value) (w : World)
      (txt : string) (ctx : ExtensionContext) (s : Session) :
  session_invariant s ->
  exists s', tryPinFromUrl JSON_parse w txt ctx s = Ok s' /\ session_invariant s'
             /\ timer s' = timer s.
Proof.
  intros Hinv.
  destruct (tryPinFromUrl_total JSON_parse w txt ctx s) as [s' Hs']. exists s'.
  split; [exact Hs'|].
  apply tryPinFromUrl_shape in Hs' as [-> | (parsed & lp & Hparse & Hq & ->)];
    [split; [exact Hinv | reflexivity]|].
  destruct Hinv as (Hsync & Hkeys & Hpr & Hrepo & Hpin).
  split; [|reflexivity].
  unfold session_invariant, in_sync, displayed.
  cbn [statusBar lastPr cachedRepo pinnedPr].
  split; [apply setStatus_lookup|].
  split; [intros k Hk; rewrite setStatus_other by congruence; apply Hkeys, Hk|].
  split.
  - intros pr Hlp. apply (from_query_well_formed JSON_parse w lp pr); [|exact Hlp].
    right. left. eauto.
  - split; [exact Hrepo|].
    intros pin Hp. injection Hp as <-. apply (parsePrUrl_pin txt parsed Hparse).
Qed.

Lemma handle_invariant (JSON_parse : string -> Result value) (w : World) (ev : Event)
      (s : Session) :
  session_invariant s ->
  exists s', handle JSON_parse w ev s = Ok s' /\ session_invariant s'.
Proof.
  intros Hinv. pose proof Hinv as (Hsync & Hkeys & Hpr & Hrepo & Hpin).
  destruct ev as [event ctx|prompt ctx|ctx|ctx| |]; cbn [handle].
  - unfold on_input. destruct (String.eqb (source event) "extension"); [eauto|].
    destruct (tryPinFromUrl_invariant JSON_parse w (text event) ctx
                (set_latestCtx (Some ctx) s) Hinv) as (s' & H & Hi & _). eauto.
  - unfold on_before_agent_start.
    destruct (tryPinFromUrl_invariant JSON_parse w prompt ctx
                (set_latestCtx (Some ctx) s) Hinv) as (s' & H & Hi & _). eauto.
  - unfold on_session_start.
    destruct (update_invariant JSON_parse w (cwd ctx) (set_latestCtx (Some ctx) s)
                Hkeys Hrepo Hpin) as (s' & -> & Hi).
    cbn [mbind Result_bind]. eexists. split; [reflexivity | exact Hi].
  - unfold on_session_switch. apply update_invariant.
    + exact Hkeys.
    + intros r Hr. discriminate Hr.
    + intros pin Hp. discriminate Hp.
  - unfold on_session_shutdown. destruct (timer s); eauto.
  - unfold on_tick. destruct (latestCtx s) as [ctx|]; [|eauto].
    apply update_invariant; assumption.
Qed.

Lemma run_invariant (JSON_parse : string -> Result value)
      (history : list (World * Event)) (s : Session) :
  session_invariant s ->
  exists s', run JSON_parse history s = Ok s' /\ session_invariant s'.
Proof.
  revert s. induction history as [|[w ev] rest IH]; intros s Hinv; [eauto|].
  cbn [run]. destruct (handle_invariant JSON_parse w ev s Hinv) as (s1 & -> & H1).
  cbn [mbind Result_bind]. apply IH, H1.
Qed.

(** X14. As long as the backends answer with typed data, no history of
    events makes the extension throw, and after every such history from the
    initial state the status bar is in step with the selection: under its
    own key it shows exactly the formatted last pull request (nothing when
    there is none), and it holds no other key. *)
Theorem status_bar_in_step :
  forall (JSON_parse : string -> Result value) (history : list (World * Event)),
    Forall (fun step => typed_world JSON_parse (fst step)) history ->
    exists s : Session,
      run JSON_parse history initial = Ok s
      /\ displayed s = formatStatus <$> lastPr s
      /\ forall k : string, k <> STATUS_KEY -> statusBar s !! k = None.
Proof.
  intros JSON_parse history _.
  destruct (run_invariant JSON_parse history initial initial_invariant)
    as (s & Hrun & Hsync & Hkeys & _).
  exists s. auto.
Qed.

(** X15. After every history from the initial state the data of the session
    is well formed: the last pull request has a truthy number and URL, a
    tally whose non-negative buckets add up to its total, and a
    non-negative count of unresolved threads; the cached repository has a
    truthy owner and name; the pin has a non-negative number and a
    repository text [<owner>/<name>] with both parts non-empty. *)
Theorem session_data_well_formed :
  forall (JSON_parse : string -> Result value) (history : list (World * Event)),
  exists s : Session,
    run JSON_parse history initial = Ok s
    /\ (forall pr, lastPr s = Some pr -> well_formed_pr pr)
    /\ (forall r, cachedRepo s = Some r -> well_formed_repo r)
    /\ (forall pin, pinnedPr s = Some pin -> well_formed_pin pin).
Proof.
  intros JSON_parse history.
  destruct (run_invariant JSON_parse history initial initial_invariant)
    as (s & Hrun & _ & _ & Hpr & Hrepo & Hpin).
  exists s. auto.
Qed.

(** ** Single transitions of the selector *)

Lemma same_branch_true (a b : option string) : same_branch a b = true -> a = b.
Proof.
  destruct a as [x|], b as [y|]; cbn; try discriminate; try reflexivity.
  intros H. apply String.eqb_eq in H. subst. reflexivity.
Qed.

(** X16. What the events leave alone.  Once repository coordinates are
    cached, no event but a session switch replaces them.  Only an event
    that carries text of the user can set a pin: after any other event the
    pin is the one before, or none. *)
Theorem selection_frame :
  forall (JSON_parse : string -> Result value) (w : World) (ev : Event) (s s' : Session),
    handle JSON_parse w ev s = Ok s' ->
    (forall r, is_switch ev = false -> cachedRepo s = Some r -> cachedRepo s' = Some r)
    /\ (is_input ev = false -> pinnedPr s' = pinnedPr s \/ pinnedPr s' = None).
Proof.
  intros JSON_parse w ev s s' H.
  assert (Hupd : forall dir s0 s1,
             update JSON_parse w dir s0 = Ok s1 ->
             (forall r, cachedRepo s0 = Some r -> cachedRepo s1 = Some r)
             /\ (pinnedPr s1 = pinnedPr s0 \/ pinnedPr s1 = None)).
  { intros dir s0 s1 Hu.
    apply update_shape in Hu as (lb & lp & cr & pp & -> & _ & Hcr & Hpp).
    cbn [cachedRepo pinnedPr]. split; [|exact Hpp].
    intros r Hr. destruct Hcr as [-> | [Hnone _]]; [exact Hr | congruence]. }
  assert (Hpin : forall txt ctx s0 s1,
             tryPinFromUrl JSON_parse w txt ctx s0 = Ok s1 -> cachedRepo s1 = cachedRepo s0).
  { intros txt ctx s0 s1 Ht.
    apply tryPinFromUrl_shape in Ht as [-> | (parsed & lp & _ & _ & ->)]; reflexivity. }
  destruct ev as [event ctx|prompt ctx|ctx|ctx| |]; cbn [handle is_switch is_input] in *.
  - split; [|discriminate]. intros r _ Hr. unfold on_input in H.
    destruct (String.eqb (source event) "extension"); [injection H as <-; exact Hr|].
    rewrite (Hpin _ _ _ _ H). exact Hr.
  - split; [|discriminate]. intros r _ Hr. unfold on_before_agent_start in H.
    rewrite (Hpin _ _ _ _ H). exact Hr.
  - unfold on_session_start in H.
    destruct (update JSON_parse w (cwd ctx) (set_latestCtx (Some ctx) s)) as [s1|e] eqn:E;
      [|discriminate H].
    cbn [mbind Result_bind] in H. injection H as <-.
    destruct (Hupd _ _ _ E) as [Hc Hp].
    split; [intros r _ Hr; apply Hc, Hr | intros _; exact Hp].
  - split; [discriminate|]. intros _. unfold on_session_switch in H.
    destruct (Hupd _ _ _ H) as [_ [Hp | Hp]]; right; exact Hp.
  - unfold on_session_shutdown in H.
    destruct (timer s); injection H as <-;
      (split; [intros r _ Hr; exact Hr | intros _; left; reflexivity]).
  - unfold on_tick in H. destruct (latestCtx s) as [ctx|].
    + destruct (Hupd _ _ _ H) as [Hc Hp].
      split; [intros r _ Hr; apply Hc, Hr | intros _; exact Hp].
    + injection H as <-. split; [intros r _ Hr; exact Hr | intros _; left; reflexivity].
Qed.

(** The transition of a poll tick without a pin. *)
Lemma update_unpinned :
  forall (JSON_parse : string -> Result value) (w : World) (dir : string) (s : Session)
         (b : option string),
    pinnedPr s = None ->
    getBranch w dir = Ok b ->
    exists s' : Session,
      update JSON_parse w dir s = Ok s'
      /\ lastBranch s' = b /\ pinnedPr s' = None
      /\ (no_branch b || is_HEAD b = true ->
          lastPr s' = None /\ displayed s' = None /\ cachedRepo s' = cachedRepo s)
      /\ (no_branch b || is_HEAD b = false ->
          cachedRepo s' = repoFor JSON_parse w dir s
          /\ getPrForBranch JSON_parse w dir (repoFor JSON_parse w dir s) = Ok (lastPr s')
          /\ displayed s' = formatStatus <$> lastPr s').
Proof.
  intros JSON_parse w dir s b Hpin Hb.
  unfold update. rewrite Hpin, Hb. cbn [mbind Result_bind].
  destruct (same_branch b (lastBranch s)) eqn:E; cbn [negb];
    [apply same_branch_true in E|];
    (destruct (no_branch b || is_HEAD b);
     [ eexists; split; [reflexivity|];
       split; [first [symmetry; exact E | reflexivity]|];
       split; [first [exact Hpin | reflexivity]|];
       split; [|discriminate]; intros _;
       split; [reflexivity|]; split; [apply displayed_showStatus | reflexivity]
     | rewrite ensureCachedRepo_spec; cbn [mbind Result_bind];
       match goal with
       | |- context [cachedRepo (set_cachedRepo ?r ?s0)] =>
           change (cachedRepo (set_cachedRepo r s0)) with (repoFor JSON_parse w dir s)
       end;
       destruct (getPrForBranch_total JSON_parse w dir (repoFor JSON_parse w dir s))
         as [pr Hpr];
       rewrite Hpr; cbn [mbind Result_bind];
       eexists; split; [reflexivity|];
       split; [first [symmetry; exact E | reflexivity]|];
       split; [first [exact Hpin | reflexivity]|];
       split; [discriminate|]; intros _;
       split; [reflexivity|]; split; [reflexivity | apply displayed_showStatus] ]).
Qed.

(** X17. A poll tick of a session that is not pinned, in a world that
    answers with typed data.  The branch reported by git becomes the
    remembered branch.  Without a branch (no answer, an
    empty name or the detached ["HEAD"]) the tick clears the last pull
    request and the status and leaves the cached repository alone; with a
    branch it caches the repository coordinates if none were cached, asks
    for the pull request of the branch with them, and shows the answer. *)
Theorem tick_unpinned :
  forall (JSON_parse : string -> Result value) (w : World) (dir : string) (s : Session)
         (b : option string),
    typed_world JSON_parse w ->
    pinnedPr s = None ->
    getBranch w dir = Ok b ->
    exists s' : Session,
      update JSON_parse w dir s = Ok s'
      /\ lastBranch s' = b /\ pinnedPr s' = None
      /\ (no_branch b || is_HEAD b = true ->
          lastPr s' = None /\ displayed s' = None /\ cachedRepo s' = cachedRepo s)
      /\ (no_branch b || is_HEAD b = false ->
          cachedRepo s' = repoFor JSON_parse w dir s
          /\ getPrForBranch JSON_parse w dir (repoFor JSON_parse w dir s) = Ok (lastPr s')
          /\ displayed s' = formatStatus <$> lastPr s').
Proof. intros JSON_parse w dir s b _. apply update_unpinned. Qed.

(** X18. A poll tick of a pinned session whose pinned query resolves keeps
    the pin and shows the pinned pull request whenever the branch does not
    offer an open one: when there is no branch, or the branch query finds
    nothing, or finds a pull request whose state is not ["OPEN"]. *)
Theorem tick_pinned_keeps_pin :
  forall (JSON_parse : string -> Result value) (w : World) (dir : string) (s : Session)
         (pin : Pin.t) (pinned : PrInfo) (b : option string),
    pinnedPr s = Some pin ->
    getPrByNumber JSON_parse w (Pin.repo pin) (Pin.number pin) = Ok (Some pinned) ->
    getBranch w dir = Ok b ->
    (no_branch b || is_HEAD b = true
     \/ exists bp : option PrInfo,
          getPrForBranch JSON_parse w dir (repoFor JSON_parse w dir s) = Ok bp
          /\ forall x, bp = Some x -> state x <> VStr "OPEN") ->
    exists s' : Session,
      update JSON_parse w dir s = Ok s'
      /\ pinnedPr s' = Some pin
      /\ lastPr s' = Some pinned
      /\ displayed s' = Some (formatStatus pinned).
Proof.
  intros JSON_parse w dir s pin pinned b Hpin Hq Hb Hbranch.
  unfold update. rewrite Hpin, Hq. cbn [mbind Result_bind]. rewrite Hb.
  cbn [mbind Result_bind].
  assert (Hshown : displayed (showStatus (Some pinned) s) = Some (formatStatus pinned))
    by apply displayed_showStatus.
  destruct (no_branch b || is_HEAD b) eqn:Enb.
  - assert (negb (no_branch b) && negb (is_HEAD b) = false) as ->.
    { destruct (no_branch b), (is_HEAD b); try reflexivity; discriminate Enb. }
    cbn [andb]. eexists. split; [reflexivity|]. repeat split; assumption.
  - destruct Hbranch as [Hx | (bp & Hbp & Hclosed)]; [discriminate Hx|].
    assert (negb (no_branch b) && negb (is_HEAD b) = true) as ->.
    { destruct (no_branch b), (is_HEAD b); try reflexivity; discriminate Enb. }
    cbn [andb]. rewrite ensureCachedRepo_spec. cbn [mbind Result_bind].
    match goal with
    | |- context [cachedRepo (set_cachedRepo ?r ?s0)] =>
        change (cachedRepo (set_cachedRepo r s0)) with r;
        replace r with (repoFor JSON_parse w dir s)
          by (destruct (same_branch b (lastBranch (showStatus (Some pinned) s)));
              reflexivity)
    end.
    rewrite Hbp. cbn [mbind Result_bind].
    assert (Hres : forall s0 : Session,
               pinnedPr s0 = Some pin -> lastPr s0 = Some pinned ->
               displayed s0 = Some (formatStatus pinned) ->
               exists s', Ok s0 = Ok s' /\ pinnedPr s' = Some pin
                          /\ lastPr s' = Some pinned
                          /\ displayed s' = Some (formatStatus pinned)).
    { intros s0 H1 H2 H3. exists s0. auto. }
    destruct bp as [x|].
    + rewrite (strict_eq_str_false (state x) "OPEN" (Hclosed x eq_refl)).
      apply Hres; destruct (same_branch b (lastBranch (showStatus (Some pinned) s)));
        first [exact Hpin | exact Hshown | reflexivity].
    + apply Hres; destruct (same_branch b (lastBranch (showStatus (Some pinned) s)));
        first [exact Hpin | exact Hshown | reflexivity].
Qed.

(** X19. Input that selects nothing.  An input event that the extension
    itself synthesized, a text without a pull-request URL, and a text whose
    URL is the pull request already pinned all leave the pin, the last pull
    request, the remembered branch, the cached repository, the timer and
    the status bar as they are, in every world: no query decides. *)
Theorem input_without_effect :
  forall (JSON_parse : string -> Result value) (w : World) (event : InputEvent)
         (ctx : ExtensionContext) (s : Session),
    (source event = "extension"
     \/ parsePrUrl (text event) = None
     \/ exists parsed,
          parsePrUrl (text event) = Some parsed
          /\ pinnedPr s = Some (Pin.mk (Parsed.repo parsed) (Parsed.number parsed))) ->
    exists s' : Session,
      on_input JSON_parse w event ctx s = Ok s'
      /\ pinnedPr s' = pinnedPr s /\ lastPr s' = lastPr s
      /\ lastBranch s' = lastBranch s /\ cachedRepo s' = cachedRepo s
      /\ timer s' = timer s /\ statusBar s' = statusBar s.
Proof.
  intros JSON_parse w event ctx s H. unfold on_input.
  destruct (String.eqb (source event) "extension") eqn:Esrc.
  { exists s. repeat split. }
  destruct H as [Hsrc | [Hno | (parsed & Hp & Hpin)]].
  - apply String.eqb_neq in Esrc. contradiction.
  - unfold tryPinFromUrl. rewrite Hno. eexists. split; [reflexivity|]. repeat split.
  - unfold tryPinFromUrl. rewrite Hp.
    assert (same_pin (pinnedPr (set_latestCtx (Some ctx) s)) parsed = true) as ->.
    { cbn [pinnedPr set_latestCtx]. rewrite Hpin. cbn [same_pin Pin.repo Pin.number].
      rewrite String.eqb_refl, Z.eqb_refl. reflexivity. }
    eexists. split; [reflexivity|]. repeat split.
Qed.

(** X20. A session switch forgets the selection, in a world that answers
    with typed data.  Its outcome depends on the old session only through
    the timer and the status bar; afterwards
    there is no pin, the context is the new one, the remembered branch is
    the one git reports in the new directory, and the cached repository is
    what a fresh lookup there returned (none, when there is no branch). *)
Theorem session_switch_resets :
  forall (JSON_parse : string -> Result value) (w : World) (ctx : ExtensionContext)
         (s : Session),
  typed_world JSON_parse w ->
  exists (s' : Session) (b : option string),
    on_session_switch JSON_parse w ctx s = Ok s'
    /\ getBranch w (cwd ctx) = Ok b
    /\ pinnedPr s' = None /\ latestCtx s' = Some ctx /\ timer s' = timer s
    /\ lastBranch s' = b
    /\ (no_branch b || is_HEAD b = true -> cachedRepo s' = None /\ displayed s' = None)
    /\ (no_branch b || is_HEAD b = false ->
        getRepoInfo JSON_parse w (cwd ctx) = Ok (cachedRepo s')
        /\ getPrForBranch JSON_parse w (cwd ctx) (cachedRepo s') = Ok (lastPr s')
        /\ displayed s' = formatStatus <$> lastPr s')
    /\ (forall s2 : Session,
          timer s2 = timer s -> statusBar s2 = statusBar s ->
          on_session_switch JSON_parse w ctx s2 = Ok s').
Proof.
  intros JSON_parse w ctx s _.
  destruct (getBranch_total w (cwd ctx)) as [b Hb].
  set (s0 := set_latestCtx (Some ctx)
               (set_pinnedPr None (set_cachedRepo None (set_lastPr None
                  (set_lastBranch None s))))).
  destruct (update_unpinned JSON_parse w (cwd ctx) s0 b eq_refl Hb)
    as (s' & Hrun & Hlb & Hpin & Hno & Hyes).
  exists s', b. split; [exact Hrun|]. split; [exact Hb|]. split; [exact Hpin|].
  pose proof Hrun as Hshape.
  apply update_shape in Hshape as (lb & lp & cr & pp & Hs' & _).
  split; [rewrite Hs'; reflexivity|]. split; [rewrite Hs'; reflexivity|].
  split; [exact Hlb|].
  split; [intros Hx; destruct (Hno Hx) as (_ & Hd & Hc); split; assumption|].
  split.
  - intros Hx. destruct (Hyes Hx) as (Hc & Hq & Hd).
    assert (Hrepo : getRepoInfo JSON_parse w (cwd ctx) = Ok (cachedRepo s')).
    { rewrite Hc. unfold repoFor. cbn [cachedRepo s0 set_latestCtx set_pinnedPr set_cachedRepo].
      destruct (getRepoInfo_total JSON_parse w (cwd ctx)) as [r ->]. reflexivity. }
    split; [exact Hrepo|]. split; [rewrite Hc; exact Hq | exact Hd].
  - intros s2 Ht Hbar. unfold on_session_switch. rewrite <- Hrun. f_equal.
    subst s0. destruct s2, s. cbn in Ht, Hbar. subst. reflexivity.
Qed.

Lemma same_branch_refl (b : option string) : same_branch b b = true.
Proof. destruct b as [x|]; [apply String.eqb_refl | reflexivity]. Qed.

(** Replay the queries of a tick: every query, test and comparison met
    before in this world gives the answer recorded in the context. *)
Ltac replay :=
  repeat first
    [ progress sel_simpl
    | rewrite same_branch_refl
    | match goal with
      | E : getPrByNumber _ _ _ _ = _ |- _ => rewrite E
      | E : getBranch _ _ = _ |- _ => rewrite E
      | E : getRepoInfo _ _ _ = _ |- _ => rewrite E
      | E : getPrForBranch _ _ _ _ = _ |- _ => rewrite E
      | E : no_branch _ = _ |- _ => rewrite E
      | E : is_HEAD _ = _ |- _ => rewrite E
      | E : same_branch _ _ = _ |- _ => rewrite E
      | E : strict_eq_str _ _ = _ |- _ => rewrite E
      | |- context [match ?r with Some _ => _ | None => _ end] =>
          is_var r; destruct r
      end ].

Ltac same_bar :=
  unfold setStatus; cbn [fmap option_fmap option_map];
  rewrite ?insert_insert_eq, ?delete_delete_eq, ?insert_delete_eq, ?delete_insert_eq;
  reflexivity.

(** X21. Polling again when nothing has changed changes nothing: a second
    poll tick in the same world and directory returns the session that the
    first one returned. *)
Theorem tick_idempotent :
  forall (JSON_parse : string -> Result value) (w : World) (dir : string)
         (s s1 : Session),
    update JSON_parse w dir s = Ok s1 ->
    update JSON_parse w dir s1 = Ok s1.
Proof.
  intros JSON_parse w dir [t lb lp cr pp lc sb] s1 H.
  unfold update, ensureCachedRepo in H. sel_simpl_in H.
  destruct pp as [pin|].
  - destruct (getPrByNumber JSON_parse w (Pin.repo pin) (Pin.number pin))
      as [pr|e] eqn:Epr; [|discriminate H].
    sel_simpl_in H.
    destruct pr as [pr|];
      [|injection H as <-; unfold update; replay; same_bar].
    destruct (getBranch w dir) as [b|e] eqn:Eb; [|discriminate H].
    sel_simpl_in H.
    destruct (no_branch b) eqn:Enb, (is_HEAD b) eqn:Ehd, (same_branch b lb) eqn:Esb;
      sel_simpl_in H;
      try (injection H as <-; unfold update; replay; same_bar);
      branch_query JSON_parse w dir cr H;
      (destruct bp as [bp|]; [destruct (strict_eq_str (state bp) "OPEN") eqn:Eopen|]);
      injection H as <-; unfold update, ensureCachedRepo; replay; same_bar.
  - destruct (getBranch w dir) as [b|e] eqn:Eb; [|discriminate H].
    sel_simpl_in H.
    destruct (no_branch b) eqn:Enb, (is_HEAD b) eqn:Ehd, (same_branch b lb) eqn:Esb;
      sel_simpl_in H;
      try (injection H as <-; unfold update; replay; same_bar);
      branch_query JSON_parse w dir cr H;
      destruct bp as [bp|];
      injection H as <-; unfold update, ensureCachedRepo; replay; same_bar.
Qed.

(** ** The extension before pinning *)

Lemma update_refines_legacy (JSON_parse : string -> Result value) (w : World)
      (dir : string) (s : Session) :
  pinnedPr s = None ->
  Legacy.update JSON_parse w dir (forget s)
  = (s' ← update JSON_parse w dir s; Ok (forget s')).
Proof.
  destruct s as [t lb lp cr pp lc sb]. cbn [pinnedPr]. intros ->.
  unfold Legacy.update, update, ensureCachedRepo, forget. sel_simpl.
  cbn [Legacy.timer Legacy.lastBranch Legacy.lastPr Legacy.cachedRepo Legacy.statusBar].
  destruct (getBranch w dir) as [b|e]; [|reflexivity].
  cbn [mbind Result_bind].
  destruct (same_branch b lb), (no_branch b), (is_HEAD b); sel_simpl;
    cbn [negb orb Legacy.timer Legacy.lastBranch Legacy.lastPr Legacy.cachedRepo
         Legacy.statusBar mbind Result_bind];
    try reflexivity;
    (destruct cr as [r|];
     [|destruct (getRepoInfo JSON_parse w dir) as [r|e]; [|reflexivity]]);
    sel_simpl; cbn [mbind Result_bind];
    (destruct (getPrForBranch JSON_parse w dir _) as [pr|e]; [|reflexivity]);
    sel_simpl; reflexivity.
Qed.

(** X22. Pinning is an extension of the earlier behaviour: on a session
    without a pin, [update] of the pinning extension does to the branch,
    pull request, repository cache and status bar exactly what [update] of
    [src/extensions/pr-status.ts] does, raises exactly when it does, and
    leaves the session without a pin and with the same latest context. *)
Theorem update_without_pin_is_legacy_update :
  forall (JSON_parse : string -> Result value) (w : World) (dir : string)
         (s : Session),
    pinnedPr s = None ->
    Legacy.update JSON_parse w dir (forget s)
    = (s' ← update JSON_parse w dir s; Ok (forget s'))
    /\ (forall s', update JSON_parse w dir s = Ok s' ->
          pinnedPr s' = None /\ latestCtx s' = latestCtx s).
Proof.
  intros JSON_parse w dir s Hpin. split; [apply update_refines_legacy, Hpin|].
  intros s' H.
  destruct (update_shape JSON_parse w dir s s' H) as (lb & lp & cr & pp & -> & _ & _ & Hp).
  cbn [pinnedPr latestCtx]. split; [|reflexivity].
  destruct Hp as [Hp|Hp]; [rewrite Hp; exact Hpin | exact Hp].
Qed.

(** X23. The session events the two extensions share agree on sessions
    without a pin: [session_start], [session_shutdown] and [session_switch]
    (the last from any session, it drops the pin first) give the result of
    the earlier extension's handler on the state both have, and leave the
    session without a pin.  The poll tick is not among them: the two
    intervals poll different contexts ([tick_after_switch_differs]). *)
Theorem handlers_without_pin_are_legacy_handlers :
  forall (JSON_parse : string -> Result value) (w : World) (ev : Event)
         (lev : Legacy.Event) (s : Session),
    as_legacy ev = Some lev ->
    pinnedPr s = None \/ is_switch ev = true ->
    Legacy.handle JSON_parse w lev (forget s)
    = (s' ← handle JSON_parse w ev s; Ok (forget s'))
    /\ (forall s', handle JSON_parse w ev s = Ok s' -> pinnedPr s' = None).
Proof.
  intros JSON_parse w ev lev s Hev Hpin.
  assert (Hkeep : forall dir s0 s', pinnedPr s0 = None ->
                    update JSON_parse w dir s0 = Ok s' -> pinnedPr s' = None).
  { intros dir s0 s' H0 H.
    destruct (update_shape JSON_parse w dir s0 s' H) as (lb & lp & cr & pp & -> & _ & _ & Hp).
    cbn [pinnedPr]. destruct Hp as [Hp|Hp]; [rewrite Hp; exact H0 | exact Hp]. }
  destruct ev as [event ctx|prompt ctx|ctx|ctx| |]; cbn [as_legacy] in Hev;
    try discriminate Hev.
  - injection Hev as <-. destruct Hpin as [Hpin|Hsw]; [|discriminate Hsw].
    cbn [Legacy.handle handle]. unfold Legacy.on_session_start, on_session_start.
    change (forget s) with (forget (set_latestCtx (Some ctx) s)).
    rewrite (update_refines_legacy JSON_parse w (cwd ctx) (set_latestCtx (Some ctx) s) Hpin).
    split.
    + destruct (update JSON_parse w (cwd ctx) (set_latestCtx (Some ctx) s)) as [s1|e];
        reflexivity.
    + intros s' H.
      destruct (update JSON_parse w (cwd ctx) (set_latestCtx (Some ctx) s)) as [s1|e] eqn:E;
        [|discriminate H].
      injection H as <-. cbn [pinnedPr set_timer]. unfold set_timer. cbn [pinnedPr].
      exact (Hkeep _ (set_latestCtx (Some ctx) s) _ Hpin E).
  - injection Hev as <-. clear Hpin.
    cbn [Legacy.handle handle]. unfold Legacy.on_session_switch, on_session_switch.
    set (s0 := set_latestCtx (Some ctx) (set_pinnedPr None (set_cachedRepo None
                 (set_lastPr None (set_lastBranch None s))))).
    change (Legacy.mkSession (Legacy.timer (forget s)) None None None
              (Legacy.statusBar (forget s))) with (forget s0).
    assert (H0 : pinnedPr s0 = None) by reflexivity.
    split; [apply update_refines_legacy, H0 | intros s' H; exact (Hkeep _ _ _ H0 H)].
  - injection Hev as <-. destruct Hpin as [Hpin|Hsw]; [|discriminate Hsw].
    cbn [Legacy.handle handle]. unfold Legacy.on_session_shutdown, on_session_shutdown.
    destruct s as [t lb lp cr pp lc sb]. cbn in Hpin. subst pp.
    destruct t; (split; [reflexivity | intros s' H; injection H as <-; reflexivity]).
Qed.

(** The poll ticks of the two extensions are different events.  After
    [session_start] in [/work] and [session_switch] to [/elsewhere] both
    extensions are in the same state and show nothing; the tick of this
    extension polls [/elsewhere] and still shows nothing, the interval of the
    earlier one polls [/work] and shows the pull request of its branch. *)
Example tick_after_switch_differs :
  exists (s : Session) (s' : Session) (l' : Legacy.Session),
    run demo_parse [(w_work_only, EvSessionStart demo_ctx);
                    (w_work_only, EvSessionSwitch elsewhere_ctx)] initial = Ok s
    /\ (l ← Legacy.handle demo_parse w_work_only (Legacy.EvSessionStart demo_ctx)
                         Legacy.initial;
        Legacy.handle demo_parse w_work_only (Legacy.EvSessionSwitch elsewhere_ctx) l)
       = Ok (forget s)
    /\ displayed s = None
    /\ handle demo_parse w_work_only EvTick s = Ok s'
    /\ displayed s' = None
    /\ Legacy.handle demo_parse w_work_only (Legacy.EvTick demo_ctx) (forget s) = Ok l'
    /\ Legacy.statusBar l' !! STATUS_KEY = Some (formatStatus (demo_info 9)).
Proof.
  eexists. eexists. eexists.
  split; [vm_compute; reflexivity|].
  split; [vm_compute; reflexivity|].
  split; [reflexivity|].
  split; [vm_compute; reflexivity|].
  split; [reflexivity|].
  split; [vm_compute; reflexivity|].
  vm_compute. reflexivity.
Qed.

(** ** The further properties at concrete inputs *)

(** Whatever the small parser returns has primitive fields where the
    program prints them. *)
Lemma review_parse_typed (text : string) (v : value) :
  review_parse text = Ok v ->
  primitive (prop v "number") = true
  /\ primitive (prop v "url") = true
  /\ primitive (prop (prop v "owner") "login") = true
  /\ primitive (prop v "name") = true.
Proof.
  unfold review_parse, demo_parse.
  repeat (destruct (String.eqb text _); [intros [= <-]; repeat split; reflexivity|]).
  discriminate.
Defined.

Lemma parseChecks_bounds_witness :
  0 <= 1 /\ 0 <= 0 /\ 0 <= 0 /\ 1 + 0 + 0 = 1
  /\ 1 <= Z.of_nat (length [Check.to_value (Check.mk (Some "SUCCESS") None None); VObj []]).
Proof.
  apply (parseChecks_bounds
           [Check.to_value (Check.mk (Some "SUCCESS") None None); VObj []]
           (mkCheckStatus 1 1 0 0)).
  reflexivity.
Defined.

Lemma parseChecks_order_independent_witness :
  parseChecks [Check.to_value (Check.mk (Some "FAILURE") None (Some "lint"));
               Check.to_value (Check.mk None (Some "QUEUED") (Some "build"))]
  = parseChecks [Check.to_value (Check.mk None (Some "QUEUED") (Some "build"));
                 Check.to_value (Check.mk (Some "FAILURE") None (Some "lint"))].
Proof.
  apply parseChecks_order_independent. apply perm_swap.
Defined.

Lemma getPrForBranch_malformed_rollup_witness :
  parseChecks [VObj [("conclusion", VStr "SUCCESS"); ("status", VStr "COMPLETED");
                     ("name", VStr "ci")]; VNull] = Throw TypeError
  /\ getPrForBranch review_parse w_broken "/work" None = Ok None.
Proof.
  apply (getPrForBranch_malformed_rollup review_parse w_broken "/work" "<broken pr>" None
           broken_response VNull).
  - reflexivity.
  - reflexivity.
  - reflexivity.
  - right. left. reflexivity.
  - left. reflexivity.
Defined.

Lemma countUnresolvedThreads_counts_witness :
  0 <= 2 <= Z.of_nat (length (map thread_value [false; true; false])).
Proof.
  apply (proj2 countUnresolvedThreads_counts (map thread_value [false; true; false]) 2).
  reflexivity.
Defined.

Lemma parsePrUrl_sound_witness :
  exists pre owner repo digits post : string,
    "see " +:+ URL_42 +:+ " please" = pre +:+ URL_42 +:+ post
    /\ URL_42 = pr_url owner repo digits
    /\ "owner/repo" = owner +:+ "/" +:+ repo
    /\ split "/" "owner/repo" = [owner; repo]
    /\ owner <> "" /\ repo <> "" /\ digits <> ""
    /\ str_forall is_digit digits = true
    /\ head_in is_digit post = false
    /\ 42 = parseInt digits
    /\ 0 <= 42.
Proof.
  apply (parsePrUrl_sound ("see " +:+ URL_42 +:+ " please")
           (Parsed.mk URL_42 "owner/repo" 42)).
  reflexivity.
Defined.

Lemma parsePrUrl_complete_witness :
  parsePrUrl ("fixes " +:+ pr_url "o" "r" "015" +:+ ", thanks")
  = Some (Parsed.mk (pr_url "o" "r" "015") "o/r" 15).
Proof.
  apply (parsePrUrl_complete "fixes " "o" "r" "015" ", thanks");
    try reflexivity; try discriminate.
  intros i Hi. simpl in Hi.
  do 6 (destruct i as [|i]; [reflexivity|]). lia.
Defined.

Lemma parsePrUrl_roundtrip_witness :
  parseInt (Z_to_string 120) = 120
  /\ parsePrUrl (pr_url "o" "r" (Z_to_string 120))
     = Some (Parsed.mk (pr_url "o" "r" (Z_to_string 120)) "o/r" 120).
Proof.
  apply (parsePrUrl_roundtrip "o" "r" 120); try reflexivity; try discriminate.
  split; [lia | reflexivity].
Defined.

Lemma query_results_well_formed_witness :
  truthy (number (demo_info 9)) = true
  /\ truthy (url (demo_info 9)) = true
  /\ valid_tally (checks (demo_info 9))
  /\ 0 <= unresolvedThreads (demo_info 9).
Proof.
  apply (query_results_well_formed demo_parse w_on_branch (demo_info 9)).
  left. exists "/work", None. reflexivity.
Defined.

Lemma getPrByNumber_contract_witness :
  getPrByNumber demo_parse w_offline "o/r" 7 = Ok None
  /\ exists n : Z,
       0 <= n
       /\ getPrByNumber demo_parse w_by_number "o/r" 7
          = Ok (Some (mkPrInfo (VNum 7) (VStr "Big PR") (VStr "https://github.com/o/r/pull/7")
                               (VStr "OPEN") (mkCheckStatus 1 1 0 0) n)).
Proof.
  split.
  - apply (proj2 (proj2 (proj2 (getPrByNumber_contract demo_parse w_offline "o/r" 7)))).
    intros pr cs (out & H & _). discriminate H.
  - apply (proj1 (proj2 (proj2 (getPrByNumber_contract demo_parse w_by_number "o/r" 7)))
             (demo_response 7 "OPEN") (mkCheckStatus 1 1 0 0)).
    exists "<pr 7>". repeat split; try reflexivity. discriminate.
Defined.

Lemma getRepoInfo_contract_witness :
  getRepoInfo review_parse w_reviewed "/work" = Ok (Some repo_o_r).
Proof.
  apply (proj2 (proj2 (getRepoInfo_contract review_parse w_reviewed "/work"))
           "<repo>" demo_repo); reflexivity.
Defined.

Lemma getPrForBranch_with_threads_witness :
  getPrForBranch review_parse w_reviewed "/work" (Some repo_o_r)
  = Ok (Some (mkPrInfo (VNum 9) (VStr "Big PR") (VStr "https://github.com/o/r/pull/9")
                       (VStr "OPEN") (mkCheckStatus 1 1 0 0) 2)).
Proof.
  apply (getPrForBranch_with_threads review_parse w_reviewed "/work" "<threads>" repo_o_r
           (demo_response 9 "OPEN") (demo_threads [false; true; false])
           (mkCheckStatus 1 1 0 0) [false; true; false]).
  - exists "<pr 9>". repeat split; try reflexivity. discriminate.
  - reflexivity.
  - reflexivity.
  - reflexivity.
Defined.

Lemma getPrByNumber_agrees_with_getPrForBranch_witness :
  getPrByNumber review_parse w_reviewed "o/r" 9
  = getPrForBranch review_parse w_reviewed "/work" (Some repo_o_r).
Proof.
  apply (getPrByNumber_agrees_with_getPrForBranch review_parse w_reviewed "/work"
           "o" "r" 9); try reflexivity; try discriminate.
Defined.

Lemma selection_frame_witness :
  let s := set_cachedRepo (Some repo_o_r) pinned_session in
  let s' := showStatus (Some (demo_info 9))
              (set_pinnedPr None (set_lastBranch (Some "feature") s)) in
  (forall r, is_switch EvTick = false -> cachedRepo s = Some r -> cachedRepo s' = Some r)
  /\ (is_input EvTick = false -> pinnedPr s' = pinnedPr s \/ pinnedPr s' = None).
Proof.
  apply (selection_frame demo_parse w_on_branch EvTick
           (set_cachedRepo (Some repo_o_r) pinned_session)).
  vm_compute. reflexivity.
Defined.

Lemma status_bar_in_step_witness :
  exists s : Session,
    run review_parse [(w_reviewed, EvSessionStart demo_ctx);
                      (w_by_number, EvInput mention_7 demo_ctx);
                      (w_reviewed, EvTick)] initial = Ok s
    /\ displayed s = formatStatus <$> lastPr s
    /\ forall k : string, k <> STATUS_KEY -> statusBar s !! k = None.
Proof.
  apply (status_bar_in_step review_parse
           [(w_reviewed, EvSessionStart demo_ctx);
            (w_by_number, EvInput mention_7 demo_ctx);
            (w_reviewed, EvTick)]).
  repeat (constructor; [intros command dir out v _; apply review_parse_typed|]).
  constructor.
Defined.

Lemma tick_unpinned_witness :
  exists s' : Session,
    update review_parse w_reviewed "/work" initial = Ok s'
    /\ lastBranch s' = Some "feature" /\ pinnedPr s' = None
    /\ (no_branch (Some "feature") || is_HEAD (Some "feature") = true ->
        lastPr s' = None /\ displayed s' = None /\ cachedRepo s' = cachedRepo initial)
    /\ (no_branch (Some "feature") || is_HEAD (Some "feature") = false ->
        cachedRepo s' = repoFor review_parse w_reviewed "/work" initial
        /\ getPrForBranch review_parse w_reviewed "/work"
             (repoFor review_parse w_reviewed "/work" initial) = Ok (lastPr s')
        /\ displayed s' = formatStatus <$> lastPr s').
Proof.
  apply (tick_unpinned review_parse w_reviewed "/work" initial (Some "feature")).
  - intros command dir out v _. apply review_parse_typed.
  - reflexivity.
  - reflexivity.
Defined.

Lemma tick_pinned_keeps_pin_witness :
  exists s' : Session,
    update demo_parse w_by_number "/work" pinned_session = Ok s'
    /\ pinnedPr s' = Some pin_7
    /\ lastPr s' = Some (demo_info 7)
    /\ displayed s' = Some (formatStatus (demo_info 7)).
Proof.
  apply (tick_pinned_keeps_pin demo_parse w_by_number "/work" pinned_session pin_7
           (demo_info 7) None).
  - reflexivity.
  - reflexivity.
  - reflexivity.
  - left. reflexivity.
Defined.

Lemma input_without_effect_witness :
  exists s' : Session,
    on_input demo_parse w_by_number mention_7 demo_ctx pinned_session = Ok s'
    /\ pinnedPr s' = pinnedPr pinned_session /\ lastPr s' = lastPr pinned_session
    /\ lastBranch s' = lastBranch pinned_session
    /\ cachedRepo s' = cachedRepo pinned_session
    /\ timer s' = timer pinned_session /\ statusBar s' = statusBar pinned_session.
Proof.
  apply (input_without_effect demo_parse w_by_number mention_7 demo_ctx pinned_session).
  right. right. exists (Parsed.mk "https://github.com/o/r/pull/7" "o/r" 7).
  split; reflexivity.
Defined.

Lemma session_switch_resets_witness :
  exists (s' : Session) (b : option string),
    on_session_switch review_parse w_reviewed demo_ctx pinned_session = Ok s'
    /\ getBranch w_reviewed (cwd demo_ctx) = Ok b
    /\ pinnedPr s' = None /\ latestCtx s' = Some demo_ctx
    /\ timer s' = timer pinned_session
    /\ lastBranch s' = b
    /\ (no_branch b || is_HEAD b = true -> cachedRepo s' = None /\ displayed s' = None)
    /\ (no_branch b || is_HEAD b = false ->
        getRepoInfo review_parse w_reviewed (cwd demo_ctx) = Ok (cachedRepo s')
        /\ getPrForBranch review_parse w_reviewed (cwd demo_ctx) (cachedRepo s')
           = Ok (lastPr s')
        /\ displayed s' = formatStatus <$> lastPr s')
    /\ (forall s2 : Session,
          timer s2 = timer pinned_session -> statusBar s2 = statusBar pinned_session ->
          on_session_switch review_parse w_reviewed demo_ctx s2 = Ok s').
Proof.
  apply (session_switch_resets review_parse w_reviewed demo_ctx pinned_session).
  intros command dir out v _. apply review_parse_typed.
Defined.

Lemma tick_idempotent_witness :
  update demo_parse w_on_branch "/work" on_feature = Ok on_feature.
Proof.
  apply (tick_idempotent demo_parse w_on_branch "/work" initial on_feature).
  vm_compute. reflexivity.
Defined.

Lemma update_without_pin_is_legacy_update_witness :
  Legacy.update review_parse w_reviewed "/work" (forget initial)
  = (s' ← update review_parse w_reviewed "/work" initial; Ok (forget s'))
  /\ (forall s', update review_parse w_reviewed "/work" initial = Ok s' ->
        pinnedPr s' = None /\ latestCtx s' = latestCtx initial).
Proof.
  apply (update_without_pin_is_legacy_update review_parse w_reviewed "/work" initial).
  reflexivity.
Defined.

Lemma handlers_without_pin_are_legacy_handlers_witness :
  Legacy.handle review_parse w_reviewed (Legacy.EvSessionSwitch demo_ctx)
                (forget pinned_session)
  = (s' ← handle review_parse w_reviewed (EvSessionSwitch demo_ctx) pinned_session;
     Ok (forget s'))
  /\ (forall s',
        handle review_parse w_reviewed (EvSessionSwitch demo_ctx) pinned_session = Ok s' ->
        pinnedPr s' = None).
Proof.
  apply (handlers_without_pin_are_legacy_handlers review_parse w_reviewed
           (EvSessionSwitch demo_ctx) (Legacy.EvSessionSwitch demo_ctx) pinned_session).
  - reflexivity.
  - right. reflexivity.
Defined.
